(** * Career Advisor backend: the quiz-profile extractor and the
      response structurer of [backend/server.js]

    The two helper functions of the quiz-analysis route,
    [extractProfileFromAnswers] and [parseAnalysis], are embedded here as
    Rocq functions.  The repository holds two variants of [server.js] that
    define both helpers; they are kept apart as [V1] (the compact variant
    built on [@google/genai]) and [V2] (the longer variant built on
    [@google/generative-ai]).  [parseAnalysis] is embedded from both, for
    their patterns differ; [extractProfileFromAnswers] is embedded from the
    compact variant, from which the longer one differs in the wording of
    one career-goal sentence only.

    JavaScript strings are sequences of UTF-16 code units; a string is a
    [list N] here.  The regular expressions of the source are values of an
    abstract syntax run by a small backtracking matcher that follows the
    priorities of the ECMAScript matcher (lazy and greedy quantifiers,
    capture groups, the anchors, leftmost match first).  A function that
    can throw returns a [result]. *)

From Stdlib Require Import String Ascii DecimalString.
From Stdlib Require Import List NArith ZArith Bool Arith Lia Permutation.
Import ListNotations.

Open Scope string_scope.
Open Scope list_scope.

(** ** Strings as UTF-16 code units *)

Definition char := N.
Definition str := list char.

(** An ASCII literal of the source as a list of code units. *)
Definition js (s : string) : str :=
  List.map N_of_ascii (list_ascii_of_string s).

Fixpoint str_eqb (a b : str) : bool :=
  match a, b with
  | [], [] => true
  | x :: a', y :: b' => N.eqb x y && str_eqb a' b'
  | _, _ => false
  end.

(** ** Character classes *)

(** [\n], U+000A. *)
Definition LF : char := 10%N.
Definition isNewline (c : char) : bool := N.eqb c LF.

(** LineTerminator: LF, CR, LS, PS.  The dot of a pattern without the [s]
    flag matches everything else. *)
Definition isLineTerminator (c : char) : bool :=
  N.eqb c 10 || N.eqb c 13 || N.eqb c 8232 || N.eqb c 8233.

(** WhiteSpace and LineTerminator code units: what [\s] matches and what
    [String.prototype.trim] removes. *)
Definition isWhite (c : char) : bool :=
  (N.leb 9 c && N.leb c 13) || N.eqb c 32 || N.eqb c 160 || N.eqb c 5760
  || (N.leb 8192 c && N.leb c 8202) || N.eqb c 8232 || N.eqb c 8233
  || N.eqb c 8239 || N.eqb c 8287 || N.eqb c 12288 || N.eqb c 65279.

(** [\d]. *)
Definition isDigit (c : char) : bool := N.leb 48 c && N.leb c 57.

(** [[\s\S]], and the dot under the [s] flag. *)
Definition anyChar (c : char) : bool := true.

(** The dot without the [s] flag. *)
Definition dot (c : char) : bool := negb (isLineTerminator c).

(** ** String primitives *)

Fixpoint dropWhile (p : char -> bool) (s : str) : str :=
  match s with
  | [] => []
  | c :: s' => if p c then dropWhile p s' else s
  end.

(** The same from the end. *)
Fixpoint dropWhileEnd (p : char -> bool) (s : str) : str :=
  match s with
  | [] => []
  | c :: s' =>
      match dropWhileEnd p s' with
      | [] => if p c then [] else [c]
      | r => c :: r
      end
  end.

(** [String.prototype.trim]. *)
Definition trim (s : str) : str :=
  dropWhileEnd isWhite (dropWhile isWhite s).

(** [s.split("\n")]: the pieces between the separators; an empty string
    splits into one empty piece. *)
Fixpoint split (sep : char) (s : str) : list str :=
  match s with
  | [] => [[]]
  | c :: s' =>
      if N.eqb c sep then [] :: split sep s'
      else match split sep s' with
           | l :: ls => (c :: l) :: ls
           | [] => [[c]]
           end
  end.

(** [strip p s] removes the prefix [p] from [s] when [s] starts with it. *)
Fixpoint strip (p s : str) : option str :=
  match p, s with
  | [], _ => Some s
  | x :: p', y :: s' => if N.eqb x y then strip p' s' else None
  | _ :: _, [] => None
  end.

(** ** Errors *)

(** A computation either returns or throws (a [TypeError] in the source). *)
Inductive result (A : Type) : Type :=
| Ok (a : A)
| Throw.
Arguments Ok {A} a.
Arguments Throw {A}.

Definition bind {A B} (m : result A) (f : A -> result B) : result B :=
  match m with
  | Ok a => f a
  | Throw => Throw
  end.

Notation "x <- m ;; k" := (bind m (fun x => k))
  (at level 61, m at next level, right associativity).

(** ** Regular expressions *)

(** The constructs the patterns of [server.js] are written with.  A
    quantifier always applies to one character class in the source, so
    [Star] carries the class. *)
Inductive regex : Type :=
| Lit (s : str)                          (* literal characters *)
| Cls (p : char -> bool)                 (* one character of a class *)
| Star (greedy : bool) (p : char -> bool) (* class*, class*? *)
| Group (i : nat) (r : regex)            (* capture group number i *)
| Cat (r1 r2 : regex)
| Bol                                    (* ^ (no m flag) *)
| Eol.                                   (* $ (no m flag) *)

(** [class+]. *)
Definition Plus (p : char -> bool) : regex := Cat (Cls p) (Star true p).

(** Captures, most recent first. *)
Definition caps := list (nat * str).

Fixpoint capture (i : nat) (c : caps) : option str :=
  match c with
  | [] => None
  | (j, s) :: c' => if Nat.eqb i j then Some s else capture i c'
  end.

(** A successful match: where it starts, the text after it, its groups. *)
Record rmatch : Type := mkMatch {
  m_start : nat;
  m_rest : str;
  m_caps : caps
}.

Section Matcher.
Variable R : Type.

(** A continuation gets the position reached, the text left and the
    captures made. *)
Definition cont := nat -> str -> caps -> option R.

(** Greedy: as many as possible first, then one fewer, ... *)
Fixpoint star_greedy (p : char -> bool) (k : cont)
         (pos : nat) (s : str) (c : caps) : option R :=
  match s with
  | a :: s' =>
      if p a then
        match star_greedy p k (S pos) s' c with
        | Some r => Some r
        | None => k pos s c
        end
      else k pos s c
  | [] => k pos s c
  end.

(** Lazy: none first, then one more, ... *)
Fixpoint star_lazy (p : char -> bool) (k : cont)
         (pos : nat) (s : str) (c : caps) : option R :=
  match k pos s c with
  | Some r => Some r
  | None =>
      match s with
      | a :: s' => if p a then star_lazy p k (S pos) s' c else None
      | [] => None
      end
  end.

Fixpoint exec (r : regex) (k : cont) (pos : nat) (s : str) (c : caps)
  : option R :=
  match r with
  | Lit l =>
      match strip l s with
      | Some s' => k (pos + length l) s' c
      | None => None
      end
  | Cls p =>
      match s with
      | a :: s' => if p a then k (S pos) s' c else None
      | [] => None
      end
  | Star true p => star_greedy p k pos s c
  | Star false p => star_lazy p k pos s c
  | Group i r' =>
      exec r' (fun pos' s' c' => k pos' s' ((i, firstn (pos' - pos) s) :: c'))
           pos s c
  | Cat r1 r2 => exec r1 (exec r2 k) pos s c
  | Bol => if Nat.eqb pos 0 then k pos s c else None
  | Eol => match s with [] => k pos s c | _ :: _ => None end
  end.
End Matcher.
Arguments star_greedy {R} p k pos s c.
Arguments star_lazy {R} p k pos s c.
Arguments exec {R} r k pos s c.

(** The match of [r] that starts at [pos], where [s] is the text from
    [pos] on. *)
Definition matchAt (r : regex) (pos : nat) (s : str) : option rmatch :=
  exec r (fun _ s' c' => Some (mkMatch pos s' c')) pos s [].

(** The leftmost match at or after [pos]. *)
Fixpoint searchFrom (r : regex) (pos : nat) (s : str) : option rmatch :=
  match matchAt r pos s with
  | Some m => Some m
  | None =>
      match s with
      | [] => None
      | _ :: s' => searchFrom r (S pos) s'
      end
  end.

(** [s.match(r)] for a pattern without the [g] flag: [null] or the first
    match. *)
Definition search (r : regex) (s : str) : option rmatch := searchFrom r 0 s.

(** [m[i]] used as a string: a group that took no part in the match is
    [undefined], and calling a method on it throws. *)
Definition group (i : nat) (m : rmatch) : result str :=
  match capture i (m_caps m) with
  | Some s => Ok s
  | None => Throw
  end.

(** [s.replace(r, "")] for a pattern without the [g] flag: the first match
    is cut out. *)
Definition replace_empty (r : regex) (s : str) : str :=
  match search r s with
  | Some m => firstn (m_start m) s ++ m_rest m
  | None => s
  end.

Infix ">>" := Cat (at level 60, right associativity).

(** ** Numbers *)

(** The Numbers [parseInt] can return: a finite Number, which has an
    integer value [z] (zero is [+0]), [-0], the two infinities and
    [NaN]. *)
Inductive number : Type :=
| Num (z : Z)
| NegZero
| Infinity
| NegInfinity
| NaN.

(** The integer value of the Number nearest to the integer [n], for
    [0 <= n]: below 2^53 every integer is a Number; from there on 53
    bits are kept, and a tie goes to the neighbour with the even last
    bit. *)
Definition roundNumber (n : Z) : Z :=
  if (n <? 2 ^ 53)%Z then n
  else
    let e := (Z.log2 n - 52)%Z in
    let q := Z.shiftr n e in
    let r := (n - Z.shiftl q e)%Z in
    let half := Z.shiftl 1 (e - 1) in
    let q' :=
      if (r <? half)%Z then q
      else if (half <? r)%Z then (q + 1)%Z
      else if Z.even q then q else (q + 1)%Z in
    Z.shiftl q' e.

(** The Number value of an integer: the nearest Number, an infinity when
    rounding reaches 2^1024. *)
Definition numberOf (x : Z) : number :=
  let m := roundNumber (Z.abs x) in
  if (2 ^ 1024 <=? m)%Z then
    (if (x <? 0)%Z then NegInfinity else Infinity)
  else Num (Z.sgn x * m).

Arguments roundNumber : simpl never.
Arguments numberOf : simpl never.

(** The value of a digit in a radix, letters in either case. *)
Definition digitVal (radix : Z) (c : char) : option Z :=
  let v :=
    if isDigit c then Some (Z.of_N c - 48)%Z
    else if N.leb 97 c && N.leb c 122 then Some (Z.of_N c - 87)%Z
    else if N.leb 65 c && N.leb c 90 then Some (Z.of_N c - 55)%Z
    else None in
  match v with
  | Some d => if (d <? radix)%Z then Some d else None
  | None => None
  end.

(** The value of the longest prefix of digits; [acc] is [None] until one
    digit has been read. *)
Fixpoint digits (radix : Z) (s : str) (acc : option Z) : option Z :=
  match s with
  | c :: s' =>
      match digitVal radix c with
      | Some d =>
          digits radix s'
                 (Some (radix * match acc with Some a => a | None => 0 end + d)%Z)
      | None => acc
      end
  | [] => acc
  end.

(** [parseInt(s)] with no radix argument: leading white space, a sign, a
    [0x] prefix, then the longest run of digits; the result is the Number
    value of the signed integer, correctly rounded as Node computes it,
    and [-0] for a zero with a minus sign. *)
Definition parseInt (s : str) : number :=
  let s1 := dropWhile isWhite s in
  let '(sign, s2) :=
    match s1 with
    | 45%N :: r => ((-1)%Z, r)
    | 43%N :: r => (1%Z, r)
    | _ => (1%Z, s1)
    end in
  let '(radix, s3) :=
    match s2 with
    | 48%N :: x :: r =>
        if N.eqb x 120 || N.eqb x 88 then (16%Z, r) else (10%Z, s2)
    | _ => (10%Z, s2)
    end in
  match digits radix s3 None with
  | Some v =>
      if (v =? 0)%Z && (sign =? -1)%Z then NegZero else numberOf (sign * v)
  | None => NaN
  end.

(** The number a string of decimal digits denotes, read from [acc] on. *)
Fixpoint decimalFrom (acc : Z) (s : str) : Z :=
  match s with
  | c :: s' => decimalFrom (10 * acc + (Z.of_N c - 48))%Z s'
  | [] => acc
  end.

Definition decimalValue (s : str) : Z := decimalFrom 0 s.

(** [n === k] for an integer literal [k]: [-0] equals zero, an infinity
    and [NaN] equal no literal. *)
Definition strictEq (n : number) (k : Z) : bool :=
  match n with
  | Num z => Z.eqb z k
  | NegZero => Z.eqb 0 k
  | Infinity | NegInfinity | NaN => false
  end.

(** ** Values of a request body *)

(** What [express.json()] can put into [req.body].  A number keeps its
    literal: no function here computes with one. *)
#[local] Set Warnings "-register-all".
Inductive JsValue : Type :=
| JNull
| JBool (b : bool)
| JNumber (literal : str)
| JString (s : str)
| JArray (items : list JsValue)
| JObject (props : list (str * JsValue)).

(** The decimal name of an array index. *)
Definition indexKey (i : nat) : str :=
  js (NilEmpty.string_of_uint (Nat.to_uint i)).

Fixpoint indexed {A : Type} (i : nat) (l : list A) : list (str * A) :=
  match l with
  | [] => []
  | x :: l' => (indexKey i, x) :: indexed (S i) l'
  end.

(** [Object.entries(v)]: the own enumerable properties in enumeration
    order; [null] has none to give and throws. *)
Definition Object_entries (v : JsValue) : result (list (str * JsValue)) :=
  match v with
  | JNull => Throw
  | JBool _ => Ok []
  | JNumber _ => Ok []
  | JString s => Ok (indexed 0 (List.map (fun c => JString [c]) s))
  | JArray items => Ok (indexed 0 items)
  | JObject props => Ok props
  end.

(** The test of the route before it calls the helper:
    [!answers || typeof answers !== "object"] rejects the request. *)
Definition acceptedAnswers (v : JsValue) : bool :=
  match v with
  | JArray _ | JObject _ => true
  | _ => false
  end.

(** [answer === "..."]. *)
Definition is_string (lit : string) (v : JsValue) : bool :=
  match v with
  | JString s => str_eqb s (js lit)
  | _ => false
  end.

(** ** Records *)

Record CareerProfile : Type := mkProfile {
  interests : list str;
  skills : list str;
  experience : JsValue;
  workStyle : JsValue;
  careerGoals : str;
  industry : JsValue
}.

Record Recommendation : Type := mkRec {
  title : str;
  description : str;
  match_ : number
}.

Record StructuredAnalysis : Type := mkAnalysis {
  summary : str;
  recommendations : list Recommendation;
  nextSteps : list str
}.

(** [list.forEach(f)] where [f] updates a state and may throw. *)
Fixpoint forEach {A S : Type} (f : S -> A -> result S) (l : list A) (st : S)
  : result S :=
  match l with
  | [] => Ok st
  | x :: l' => st' <- f st x ;; forEach f l' st'
  end.

(** The section headers of the answer template. *)
Definition hdrProfile : str := js "**CAREER PROFILE ANALYSIS:**".
Definition hdrTop3 : str := js "**TOP 3 CAREER RECOMMENDATIONS:**".
Definition hdrNext : str := js "**NEXT STEPS:**".

(** ** The compact variant of [server.js] *)

Module V1.

(** The callback of [Object.entries(answers).forEach] in
    [extractProfileFromAnswers]: one entry applied to the profile.  The
    [switch] compares [parseInt(id)] with its case labels in order;
    [push] appends at the end. *)
Definition step (profile : CareerProfile) (entry : str * JsValue)
  : CareerProfile :=
  let '(id, answer) := entry in
  let n := parseInt id in
  if strictEq n 1 then
    let push a b :=
      mkProfile (interests profile ++ [js a; js b]) (skills profile)
                (experience profile) (workStyle profile)
                (careerGoals profile) (industry profile) in
    if is_string "analytical" answer then push "Problem Solving" "Analysis"
    else if is_string "creative" answer then push "Creative Work" "Design"
    else if is_string "people-oriented" answer
         then push "People Management" "Communication"
    else if is_string "leadership" answer then push "Leadership" "Management"
    else profile
  else if strictEq n 2 then
    mkProfile (interests profile) (skills profile) (experience profile)
              answer (careerGoals profile) (industry profile)
  else if strictEq n 3 then
    let set g :=
      mkProfile (interests profile) (skills profile) (experience profile)
                (workStyle profile) (js g) (industry profile) in
    if is_string "financial" answer then set "Financial success and stability"
    else if is_string "impact" answer then set "Positive social impact"
    else if is_string "growth" answer
         then set "Personal and professional growth"
    else if is_string "recognition" answer
         then set "Achievement and recognition"
    else profile
  else if strictEq n 4 then
    mkProfile (interests profile) (skills profile) (experience profile)
              (workStyle profile) (careerGoals profile) answer
  else if strictEq n 7 then
    let push a b :=
      mkProfile (interests profile) (skills profile ++ [js a; js b])
                (experience profile) (workStyle profile)
                (careerGoals profile) (industry profile) in
    if is_string "technical" answer then push "Technical Skills" "Programming"
    else if is_string "communication" answer
         then push "Communication" "Presentation"
    else if is_string "leadership-skills" answer
         then push "Leadership" "Management"
    else if is_string "creative-skills" answer
         then push "Creative Skills" "Design"
    else profile
  else if strictEq n 10 then
    mkProfile (interests profile) (skills profile) answer
              (workStyle profile) (careerGoals profile) (industry profile)
  else profile.

(** The profile [extractProfileFromAnswers] starts from. *)
Definition emptyProfile : CareerProfile :=
  mkProfile [] [] (JString []) (JString []) [] (JString []).

(** The loop over the entries, in their order. *)
Definition applyEntries (entries : list (str * JsValue)) : CareerProfile :=
  fold_left step entries emptyProfile.

Definition extractProfileFromAnswers (answers : JsValue)
  : result CareerProfile :=
  entries <- Object_entries answers ;;
  Ok (applyEntries entries).

(** The summary pattern: the first header, a lazy group of any
    characters, then the literal [**TOP 3]. *)
Definition reSummary : regex :=
  Lit hdrProfile >> Group 1 (Star false anyChar) >> Lit (js "**TOP 3").

(** The recommendations pattern: the second header, a lazy group of any
    characters, then the literal [**NEXT]. *)
Definition reRecs : regex :=
  Lit hdrTop3 >> Group 1 (Star false anyChar) >> Lit (js "**NEXT").

(** The line pattern: [^], digits, [. ], a lazy group of the dot, [ - ],
    a lazy group of the dot, [ Match: ], a group of digits, [%]. *)
Definition reLine : regex :=
  Bol >> Plus isDigit >> Lit (js ". ") >> Group 1 (Star false dot)
      >> Lit (js " - ") >> Group 2 (Star false dot) >> Lit (js " Match: ")
      >> Group 3 (Plus isDigit) >> Lit (js "%").

(** The next-steps pattern: the third header, a greedy group of any
    characters, then [$]. *)
Definition reNext : regex :=
  Lit hdrNext >> Group 1 (Star true anyChar) >> Eol.

(** The class of the bullet pattern: a hyphen or U+2022. *)
Definition bullet (c : char) : bool := N.eqb c 45 || N.eqb c 8226.

(** The bullet pattern: [^], one character of the class, greedy white
    space. *)
Definition reBullet : regex := Bol >> Cls bullet >> Star true isWhite.

(** The callback over the lines of the recommendation section. *)
Definition recLine (recs : list Recommendation) (line : str)
  : result (list Recommendation) :=
  match search reLine line with
  | Some m =>
      t <- group 1 m ;;
      d <- group 2 m ;;
      n <- group 3 m ;;
      Ok (recs ++ [mkRec t d (parseInt n)])
  | None => Ok recs
  end.

(** The callback over the lines of the next-steps section. *)
Definition cleanStep (l : str) : str := trim (replace_empty reBullet l).

Definition parseAnalysis (text : str) : result StructuredAnalysis :=
  let structured := mkAnalysis [] [] [] in
  structured <-
    match search reSummary text with
    | Some summaryMatch =>
        g <- group 1 summaryMatch ;;
        Ok (mkAnalysis (trim g) (recommendations structured)
                       (nextSteps structured))
    | None => Ok structured
    end ;;
  structured <-
    match search reRecs text with
    | Some recsMatch =>
        g <- group 1 recsMatch ;;
        recs <- forEach recLine (split LF (trim g))
                        (recommendations structured) ;;
        Ok (mkAnalysis (summary structured) recs (nextSteps structured))
    | None => Ok structured
    end ;;
  match search reNext text with
  | Some nextStepsMatch =>
      g <- group 1 nextStepsMatch ;;
      Ok (mkAnalysis (summary structured) (recommendations structured)
                     (List.map cleanStep (split LF (trim g))))
  | None => Ok structured
  end.

(** The record a line gives, if the line pattern matches it. *)
Definition lineRecord (line : str) : option Recommendation :=
  match search reLine line with
  | Some m =>
      match group 1 m, group 2 m, group 3 m with
      | Ok t, Ok d, Ok n => Some (mkRec t d (parseInt n))
      | _, _, _ => None
      end
  | None => None
  end.

End V1.

(** ** The longer variant of [server.js] *)

Module V2.

(** The callback of [Object.entries(answers).forEach] in this variant's
    [extractProfileFromAnswers]; the sentence for [impact] is worded
    otherwise than in the compact variant. *)
Definition step (profile : CareerProfile) (entry : str * JsValue)
  : CareerProfile :=
  let '(questionId, answer) := entry in
  let n := parseInt questionId in
  if strictEq n 1 then
    let push a b :=
      mkProfile (interests profile ++ [js a; js b]) (skills profile)
                (experience profile) (workStyle profile)
                (careerGoals profile) (industry profile) in
    if is_string "analytical" answer then push "Problem Solving" "Analysis"
    else if is_string "creative" answer then push "Creative Work" "Design"
    else if is_string "people-oriented" answer
         then push "People Management" "Communication"
    else if is_string "leadership" answer then push "Leadership" "Management"
    else profile
  else if strictEq n 2 then
    mkProfile (interests profile) (skills profile) (experience profile)
              answer (careerGoals profile) (industry profile)
  else if strictEq n 3 then
    let set g :=
      mkProfile (interests profile) (skills profile) (experience profile)
                (workStyle profile) (js g) (industry profile) in
    if is_string "financial" answer then set "Financial success and stability"
    else if is_string "impact" answer then set "Making positive social impact"
    else if is_string "growth" answer
         then set "Personal and professional growth"
    else if is_string "recognition" answer
         then set "Achievement and recognition"
    else profile
  else if strictEq n 4 then
    mkProfile (interests profile) (skills profile) (experience profile)
              (workStyle profile) (careerGoals profile) answer
  else if strictEq n 7 then
    let push a b :=
      mkProfile (interests profile) (skills profile ++ [js a; js b])
                (experience profile) (workStyle profile)
                (careerGoals profile) (industry profile) in
    if is_string "technical" answer then push "Technical Skills" "Programming"
    else if is_string "communication" answer
         then push "Communication" "Presentation"
    else if is_string "leadership-skills" answer
         then push "Leadership" "Management"
    else if is_string "creative-skills" answer
         then push "Creative Skills" "Design"
    else profile
  else if strictEq n 10 then
    mkProfile (interests profile) (skills profile) answer
              (workStyle profile) (careerGoals profile) (industry profile)
  else profile.

Definition emptyProfile : CareerProfile :=
  mkProfile [] [] (JString []) (JString []) [] (JString []).

Definition applyEntries (entries : list (str * JsValue)) : CareerProfile :=
  fold_left step entries emptyProfile.

Definition extractProfileFromAnswers (answers : JsValue)
  : result CareerProfile :=
  entries <- Object_entries answers ;;
  Ok (applyEntries entries).

(** The summary pattern, under the [s] flag: the first header, greedy
    newlines, a lazy group of the dot, greedy newlines, the second
    header. *)
Definition reSummary : regex :=
  Lit hdrProfile >> Star true isNewline >> Group 1 (Star false anyChar)
         >> Star true isNewline >> Lit hdrTop3.

(** The recommendations pattern, under the [s] flag: the second header,
    greedy newlines, a lazy group of the dot, greedy newlines, the third
    header. *)
Definition reRecs : regex :=
  Lit hdrTop3 >> Star true isNewline >> Group 1 (Star false anyChar)
         >> Star true isNewline >> Lit hdrNext.

(** The line pattern, written as in the compact variant. *)
Definition reLine : regex :=
  Bol >> Plus isDigit >> Lit (js ". ") >> Group 1 (Star false dot)
      >> Lit (js " - ") >> Group 2 (Star false dot) >> Lit (js " Match: ")
      >> Group 3 (Plus isDigit) >> Lit (js "%").

(** The next-steps pattern, under the [s] flag: the third header, greedy
    newlines, a lazy group of the dot, then [$]. *)
Definition reNext : regex :=
  Lit hdrNext >> Star true isNewline >> Group 1 (Star false anyChar) >> Eol.

(** The class of the bullet pattern as this variant's file has it: a
    hyphen, U+00E2, U+20AC or U+00A2. *)
Definition bullet (c : char) : bool :=
  N.eqb c 45 || N.eqb c 226 || N.eqb c 8364 || N.eqb c 162.

Definition reBullet : regex := Bol >> Cls bullet >> Star true isWhite.

Definition recLine (recs : list Recommendation) (line : str)
  : result (list Recommendation) :=
  match search reLine line with
  | Some recMatch =>
      t <- group 1 recMatch ;;
      d <- group 2 recMatch ;;
      n <- group 3 recMatch ;;
      Ok (recs ++ [mkRec (trim t) (trim d) (parseInt n)])
  | None => Ok recs
  end.

Definition cleanStep (line : str) : str := trim (replace_empty reBullet line).

Definition parseAnalysis (analysisText : str) : result StructuredAnalysis :=
  let structuredAnalysis := mkAnalysis [] [] [] in
  structuredAnalysis <-
    match search reSummary analysisText with
    | Some summaryMatch =>
        g <- group 1 summaryMatch ;;
        Ok (mkAnalysis (trim g) (recommendations structuredAnalysis)
                       (nextSteps structuredAnalysis))
    | None => Ok structuredAnalysis
    end ;;
  structuredAnalysis <-
    match search reRecs analysisText with
    | Some recsMatch =>
        g <- group 1 recsMatch ;;
        let recLines := split LF (trim g) in
        recs <- forEach recLine recLines
                        (recommendations structuredAnalysis) ;;
        Ok (mkAnalysis (summary structuredAnalysis) recs
                       (nextSteps structuredAnalysis))
    | None => Ok structuredAnalysis
    end ;;
  match search reNext analysisText with
  | Some nextStepsMatch =>
      g <- group 1 nextStepsMatch ;;
      let stepLines := split LF (trim g) in
      Ok (mkAnalysis (summary structuredAnalysis)
                     (recommendations structuredAnalysis)
                     (List.map cleanStep stepLines))
  | None => Ok structuredAnalysis
  end.

(** The record a line gives, if the line pattern matches it. *)
Definition lineRecord (line : str) : option Recommendation :=
  match search reLine line with
  | Some m =>
      match group 1 m, group 2 m, group 3 m with
      | Ok t, Ok d, Ok n => Some (mkRec (trim t) (trim d) (parseInt n))
      | _, _, _ => None
      end
  | None => None
  end.

End V2.

(** ** Vocabulary of the statements *)

(** [p] occurs somewhere in [s]. *)
Definition occurs (p s : str) : Prop := exists a c, s = a ++ p ++ c.

(** In [a ++ p ++ c] no occurrence of [p] starts before index [length a]:
    the one shown is the first. *)
Definition first_at (p a c : str) : Prop :=
  forall a' c', a ++ p ++ c = a' ++ p ++ c' -> length a <= length a'.

(** The text before and after the first occurrence of [p] in [s]. *)
Fixpoint find (p s : str) : option (str * str) :=
  match strip p s with
  | Some r => Some ([], r)
  | None =>
      match s with
      | [] => None
      | x :: s' =>
          match find p s' with
          | Some (a, r) => Some (x :: a, r)
          | None => None
          end
      end
  end.

(** The text between the first [opening] and the first [closing] after
    it. *)
Definition between (opening closing s : str) : option str :=
  match find opening s with
  | Some (_, r) =>
      match find closing r with
      | Some (b, _) => Some b
      | None => None
      end
  | None => None
  end.

(** The text after the first [opening]. *)
Definition after (opening s : str) : option str :=
  match find opening s with
  | Some (_, r) => Some r
  | None => None
  end.

(** Every character of [s] is white space. *)
Definition blank (s : str) : Prop := Forall (fun c => isWhite c = true) s.

(** The words a pattern can consume, whatever the priorities. *)
Fixpoint lang (r : regex) (w : str) : Prop :=
  match r with
  | Lit l => w = l
  | Cls p => exists a, w = [a] /\ p a = true
  | Star _ p => Forall (fun a => p a = true) w
  | Group _ r' => lang r' w
  | Cat r1 r2 => exists w1 w2, w = w1 ++ w2 /\ lang r1 w1 /\ lang r2 w2
  | Bol => w = []
  | Eol => w = []
  end.

(** The body of capture group [i] of a pattern, if it has that group. *)
Fixpoint groupBody (i : nat) (r : regex) : option regex :=
  match r with
  | Group j r' => if Nat.eqb i j then Some r' else groupBody i r'
  | Cat r1 r2 =>
      match groupBody i r2 with
      | Some b => Some b
      | None => groupBody i r1
      end
  | _ => None
  end.

(** What the captures are after a pattern has matched: a group of the
    pattern holds a word of its body, the other groups are untouched. *)
Definition caps_after (r : regex) (c c' : caps) : Prop :=
  forall i,
    match groupBody i r with
    | Some b => exists g, capture i c' = Some g /\ lang b g
    | None => capture i c' = capture i c
    end.

(** The elements that [f] keeps, in order. *)
Fixpoint filterMap {A B : Type} (f : A -> option B) (l : list A) : list B :=
  match l with
  | [] => []
  | x :: l' =>
      match f x with
      | Some y => y :: filterMap f l'
      | None => filterMap f l'
      end
  end.

(** ** Vocabulary of the quiz statements *)

(** The entry is one for question [k]: its key parses to [k]. *)
Definition hasId (k : Z) (entry : str * JsValue) : bool :=
  strictEq (parseInt (fst entry)) k.

(** The question ids of the entries whose key parses to a finite
    number. *)
Definition questionIds (entries : list (str * JsValue)) : list Z :=
  filterMap (fun e => match parseInt (fst e) with
                      | Num z => Some z
                      | NegZero => Some 0%Z
                      | Infinity | NegInfinity | NaN => None
                      end) entries.

(** The entry is one for a question that the extractor reads. *)
Definition recognized (entry : str * JsValue) : bool :=
  hasId 1 entry || hasId 2 entry || hasId 3 entry || hasId 4 entry
  || hasId 7 entry || hasId 10 entry.

(** The answer codes that question 3 knows. *)
Definition knownGoal (answer : JsValue) : bool :=
  is_string "financial" answer || is_string "impact" answer
  || is_string "growth" answer || is_string "recognition" answer.

(** ** Sample texts *)

(** An answer that follows the template. *)
Definition sampleAnswer : str :=
  hdrProfile ++ js " You are analytical." ++ [LF]
    ++ hdrTop3 ++ [LF]
    ++ js "1. Data Scientist - Analyzes data. Match: 85%" ++ [LF]
    ++ hdrNext ++ [LF]
    ++ js "- Learn SQL" ++ [LF] ++ js "-" ++ [LF] ++ js "- Build a portfolio".

(** An answer whose second header is worded differently. *)
Definition rewordedAnswer : str :=
  hdrProfile ++ js " Curious and precise. **TOP 3 CAREERS:** none".


(** An answer whose next-steps section is white space only. *)
Definition blankStepsAnswer : str := hdrNext ++ js "  " ++ [LF].

(** An answer with a match above one hundred. *)
Definition overAnswer : str :=
  hdrTop3 ++ [LF] ++ js "1. Intern - Fetches coffee. Match: 150%" ++ [LF]
    ++ hdrNext.

(** The record of its line. *)
Definition overRecord : Recommendation :=
  mkRec (js "Intern") (js "Fetches coffee.") (Num 150).

(** An answer with another bold line that starts with [**NEXT] inside the
    recommendation section. *)
Definition strayAnswer : str :=
  hdrTop3 ++ [LF]
    ++ js "1. Data Scientist - Analyzes data. Match: 85%" ++ [LF]
    ++ js "**NEXT UP**" ++ [LF]
    ++ js "2. Data Engineer - Builds pipelines. Match: 80%" ++ [LF]
    ++ hdrNext ++ [LF] ++ js "- Learn SQL".

(** An answer that stops in a bold line that starts with [**NEXT], before
    any third header. *)
Definition nextUpAnswer : str :=
  hdrTop3 ++ [LF]
    ++ js "1. Data Scientist - Analyzes data. Match: 85%" ++ [LF]
    ++ js "**NEXT UP**".

(** ** Sample quiz answers *)

Definition analyticalTechnical : JsValue :=
  JObject [(js "1", JString (js "analytical"));
           (js "2", JString (js "remote"));
           (js "7", JString (js "technical"))].

(** Two keys that both parse to 3, in the order [Object.entries] gives
    them: the integer key first. *)
Definition impactThenFinancial : JsValue :=
  JObject [(js "3", JString (js "impact"));
           (js "03", JString (js "financial"))].

(** ** Vocabulary of the further statements *)

(** The answer codes that question 1 and question 7 know. *)
Definition knownInterest (answer : JsValue) : bool :=
  is_string "analytical" answer || is_string "creative" answer
  || is_string "people-oriented" answer || is_string "leadership" answer.

Definition knownSkill (answer : JsValue) : bool :=
  is_string "technical" answer || is_string "communication" answer
  || is_string "leadership-skills" answer
  || is_string "creative-skills" answer.

(** The entry is for a question the extractor reads and, for the
    questions with a table of codes, carries a code of the table. *)
Definition effective (entry : str * JsValue) : bool :=
  (hasId 1 entry && knownInterest (snd entry))
  || hasId 2 entry
  || (hasId 3 entry && knownGoal (snd entry))
  || hasId 4 entry
  || (hasId 7 entry && knownSkill (snd entry))
  || hasId 10 entry.

(** The strings the extractor can put into the interests, the skills and
    the career goal. *)
Definition interestTags : list str :=
  [js "Problem Solving"; js "Analysis"; js "Creative Work"; js "Design";
   js "People Management"; js "Communication"; js "Leadership";
   js "Management"].

Definition skillTags : list str :=
  [js "Technical Skills"; js "Programming"; js "Communication";
   js "Presentation"; js "Leadership"; js "Management";
   js "Creative Skills"; js "Design"].

Definition goalSentences : list str :=
  [[]; js "Financial success and stability"; js "Positive social impact";
   js "Personal and professional growth"; js "Achievement and recognition"].

(** The text neither starts nor ends with white space. *)
Definition trimmed (s : str) : Prop :=
  (forall x s', s = x :: s' -> isWhite x = false)
  /\ (forall s' x, s = s' ++ [x] -> isWhite x = false).

(** The text holds no asterisk. *)
Definition noAsterisk (s : str) : Prop :=
  Forall (fun a => N.eqb a 42 = false) s.

(** [p] starts at no position of [w] in the text [w ++ x]. *)
Fixpoint noMatchInside (p w x : str) : Prop :=
  match w with
  | [] => True
  | c :: w' => strip p (c :: w' ++ x) = None /\ noMatchInside p w' x
  end.

(** The headers without their asterisks. *)
Definition wordsProfile : str := js "CAREER PROFILE ANALYSIS:".
Definition wordsTop3 : str := js "TOP 3 CAREER RECOMMENDATIONS:".
Definition wordsNext : str := js "NEXT STEPS:".

(** A text that follows the template: the three headers in their order
    around a summary part, a recommendations part and a steps part. *)
Definition templateText (before summaryPart recsPart stepsPart : str) : str :=
  before ++ hdrProfile ++ summaryPart ++ hdrTop3 ++ recsPart
         ++ hdrNext ++ stepsPart.


(** ** The quiz analysis route *)

(** [const { answers } = req.body]: the own property of that name; a
    string, a number, a boolean and an array have none, and the keys of
    an object are distinct. *)
Definition ownProperty (name : str) (v : JsValue) : option JsValue :=
  match v with
  | JObject props =>
      option_map snd (List.find (fun kv => str_eqb (fst kv) name) props)
  | _ => None
  end.

(** Destructuring throws on a body that is [undefined] or [null]. *)
Definition answersOf (reqBody : option JsValue) : result (option JsValue) :=
  match reqBody with
  | None => Throw
  | Some JNull => Throw
  | Some b => Ok (ownProperty (js "answers") b)
  end.

(** Whether the template literal can turn an answer into a string.  An
    object of a JSON body is printed by [Object.prototype.toString]
    unless it has a property [toString] of its own, which is no function
    and leaves the conversion without a primitive; an array prints its
    items, [null] as the empty string. *)
Fixpoint printable (v : JsValue) : bool :=
  match v with
  | JObject props =>
      negb (existsb (fun kv => str_eqb (fst kv) (js "toString")) props)
  | JArray items => forallb printable items
  | _ => true
  end.

(** What the call of the model comes to. *)
Inductive aiOutcome : Type :=
| AiText (text : str)
| AiNoText
| AiThrows.

(** The object handed to [res.json]. *)
Inductive responseBody : Type :=
| ErrorBody (error message : str)
| AnalysisBody (analysis : str) (recommendations : list Recommendation)
    (nextSteps : list str) (profile : CareerProfile) (timestamp : str).

Record response : Type := mkResponse {
  status : nat;
  body : responseBody
}.

Definition invalidRequest : response :=
  mkResponse 400
    (ErrorBody (js "Invalid request") (js "Quiz answers are required")).

Definition analysisFailed : response :=
  mkResponse 500
    (ErrorBody (js "Analysis failed") (js "Failed to analyze quiz responses")).

(** The handler of [/api/quiz-analysis], with the two helpers of its
    variant; [now] is [new Date().toISOString()].  Everything after the
    destructuring runs inside the [try]; the prompt is built before the
    model is called and the helpers run after it. *)
Definition quizAnalysis
  (extractProfileFromAnswers : JsValue -> result CareerProfile)
  (parseAnalysis : str -> result StructuredAnalysis)
  (reqBody : option JsValue) (ai : aiOutcome) (now : str) : response :=
  let attempt : result response :=
    answers <- answersOf reqBody ;;
    match answers with
    | None => Ok invalidRequest
    | Some answers =>
        if negb (acceptedAnswers answers) then Ok invalidRequest else
        entries <- Object_entries answers ;;
        _ <- forEach (fun (_ : unit) (e : str * JsValue) =>
                        if printable (snd e) then Ok tt else Throw)
                     entries tt ;;
        analysis <- match ai with
                    | AiText t => Ok (Some t)
                    | AiNoText => Ok None
                    | AiThrows => Throw
                    end ;;
        profile <- extractProfileFromAnswers answers ;;
        structuredAnalysis <- match analysis with
                              | Some t => parseAnalysis t
                              | None => Throw
                              end ;;
        Ok (mkResponse 200
              (AnalysisBody (summary structuredAnalysis)
                 (recommendations structuredAnalysis)
                 (nextSteps structuredAnalysis) profile now))
    end in
  match attempt with
  | Ok r => r
  | Throw => analysisFailed
  end.

Definition V1_quizAnalysis : option JsValue -> aiOutcome -> str -> response :=
  quizAnalysis V1.extractProfileFromAnswers V1.parseAnalysis.

Definition V2_quizAnalysis : option JsValue -> aiOutcome -> str -> response :=
  quizAnalysis V2.extractProfileFromAnswers V2.parseAnalysis.

(** A request whose body has answers that pass the test of the route. *)
Definition answersGiven (reqBody : option JsValue) (answers : JsValue) : Prop :=
  exists b, reqBody = Some b
            /\ ownProperty (js "answers") b = Some answers
            /\ acceptedAnswers answers = true.

(** Every answer can be written into the prompt. *)
Definition allPrintable (answers : JsValue) : Prop :=
  forall entries, Object_entries answers = Ok entries ->
                  Forall (fun e => printable (snd e) = true) entries.

(** ** Where the groups of a match stand *)

(** [w] is matched by [r] from position [pos] and every group of [r]
    takes the part of [w] it stands on: the captures [c] become [c']. *)
Fixpoint matched (r : regex) (pos : nat) (w : str) (c c' : caps) : Prop :=
  match r with
  | Lit l => w = l /\ c' = c
  | Cls p => (exists a, w = [a] /\ p a = true) /\ c' = c
  | Star _ p => Forall (fun a => p a = true) w /\ c' = c
  | Group i r' => exists c1, matched r' pos w c c1 /\ c' = (i, w) :: c1
  | Cat r1 r2 =>
      exists w1 w2 c1,
        w = w1 ++ w2 /\ matched r1 pos w1 c c1
        /\ matched r2 (pos + length w1) w2 c1 c'
  | Bol => w = [] /\ pos = 0 /\ c' = c
  | Eol => w = [] /\ c' = c
  end.
(** ** Strings *)

Lemma strip_app (p r : str) : strip p (p ++ r) = Some r.
Proof.
  induction p as [|x p IH]; simpl; [reflexivity|].
  now rewrite N.eqb_refl.
Qed.

Lemma strip_Some (p s r : str) : strip p s = Some r -> s = p ++ r.
Proof.
  revert s; induction p as [|x p IH]; intros s H; simpl in *.
  - now inversion H.
  - destruct s as [|y s]; [discriminate|].
    destruct (N.eqb_spec x y) as [->|]; [|discriminate].
    f_equal. now apply IH.
Qed.

Lemma strip_None (p s : str) :
  strip p s = None -> forall r, s <> p ++ r.
Proof.
  intros H r ->. now rewrite strip_app in H.
Qed.

Lemma app_same_length_eq (A : Type) (a a' b b' : list A) :
  a ++ b = a' ++ b' -> length a = length a' -> a = a' /\ b = b'.
Proof.
  revert a'; induction a as [|x a IH]; intros [|y a'] H L; simpl in *;
    try discriminate; [now split|].
  injection H as -> Hab. destruct (IH a' Hab) as [-> ->]; [lia|now split].
Qed.

(** Two ways of cutting one list: the shorter front is a prefix of the
    longer one. *)
Lemma app_eq_split (A : Type) (a a' b b' : list A) :
  a ++ b = a' ++ b' -> length a <= length a' ->
  exists w, a' = a ++ w /\ b = w ++ b'.
Proof.
  revert a'; induction a as [|x a IH]; intros a' H L; simpl in *.
  - exists a'. now split.
  - destruct a' as [|y a']; simpl in *; [lia|].
    injection H as -> Hab. destruct (IH a' Hab) as (w & -> & ->); [lia|].
    exists w. now split.
Qed.

Lemma find_Some (p s a r : str) :
  find p s = Some (a, r) -> s = a ++ p ++ r /\ first_at p a r.
Proof.
  revert a r; induction s as [|x s IH]; intros a r H; simpl in H.
  - destruct (strip p []) eqn:E; [|discriminate].
    inversion H; subst. apply strip_Some in E. split; [exact E|].
    intros a' c' _. simpl. lia.
  - destruct (strip p (x :: s)) eqn:E.
    + inversion H; subst. apply strip_Some in E. split; [exact E|].
      intros a' c' _. simpl. lia.
    + destruct (find p s) as [[a0 r0]|] eqn:F; [|discriminate].
      inversion H; subst. destruct (IH _ _ eq_refl) as [-> Hf].
      split; [reflexivity|].
      intros a' c' Heq. destruct a' as [|y a'].
      * exfalso. simpl in Heq. apply (strip_None _ _ E c'). exact Heq.
      * simpl in *. inversion Heq; subst.
        apply le_n_S. eapply Hf. eassumption.
Qed.

Lemma find_None (p s : str) : find p s = None -> ~ occurs p s.
Proof.
  induction s as [|x s IH]; intros H (a & c & Heq); simpl in H.
  - destruct (strip p []) eqn:E; [discriminate|].
    destruct a; simpl in Heq.
    + apply (strip_None _ _ E c). exact Heq.
    + discriminate.
  - destruct (strip p (x :: s)) eqn:E; [discriminate|].
    destruct (find p s) as [[a0 r0]|] eqn:F; [discriminate|].
    destruct a as [|y a]; simpl in Heq.
    + apply (strip_None _ _ E c). exact Heq.
    + inversion Heq; subst. apply IH; [reflexivity|]. now exists a, c.
Qed.

Lemma find_first (p a r : str) :
  first_at p a r -> find p (a ++ p ++ r) = Some (a, r).
Proof.
  intros Hf. destruct (find p (a ++ p ++ r)) as [[a0 r0]|] eqn:F.
  - destruct (find_Some _ _ _ _ F) as [Heq Hf0].
    pose proof (Hf _ _ Heq) as L1.
    pose proof (Hf0 _ _ (eq_sym Heq)) as L2.
    destruct (app_same_length_eq _ _ _ _ _ Heq) as [-> Hr]; [lia|].
    apply app_inv_head in Hr. now subst.
  - exfalso. apply (find_None _ _ F). now exists a, r.
Qed.

Lemma find_occurs (p s : str) :
  occurs p s -> exists a r, find p s = Some (a, r).
Proof.
  intros Ho. destruct (find p s) as [[a r]|] eqn:F; [now exists a, r|].
  now apply find_None in F.
Qed.

Lemma occurs_suffix (p w s : str) : occurs p s -> occurs p (w ++ s).
Proof.
  intros (a & c & ->). exists (w ++ a), c. now rewrite <- app_assoc.
Qed.

Lemma occurs_app_l (p s w : str) : occurs p s -> occurs p (s ++ w).
Proof.
  intros (a & c & ->). exists a, (c ++ w). now rewrite <- !app_assoc.
Qed.

(** ** The matcher on the shapes of the patterns *)

(** A lazy run of any characters stops at the first place where the
    literal that follows it is found. *)
Lemma star_lazy_find {R : Type} (T : str) (G : nat -> str -> caps -> R) :
  forall s pos c,
    star_lazy anyChar
      (fun pos' s' c' =>
         match strip T s' with
         | Some s'' => Some (G pos' s'' c')
         | None => None
         end) pos s c
    = match find T s with
      | Some (b, r) => Some (G (pos + length b) r c)
      | None => None
      end.
Proof.
  induction s as [|x s IH]; intros pos c; simpl.
  - destruct (strip T []); [now rewrite Nat.add_0_r|reflexivity].
  - destruct (strip T (x :: s)); [now rewrite Nat.add_0_r|].
    rewrite IH. destruct (find T s) as [[b r]|]; [|reflexivity].
    simpl. now rewrite Nat.add_succ_r.
Qed.

Lemma exec_group_lazy_lit {R : Type} (i : nat) (T : str)
      (F : nat -> str -> caps -> R) (s : str) (pos : nat) (c : caps) :
  exec (Group i (Star false anyChar) >> Lit T)
       (fun p s' c' => Some (F p s' c')) pos s c
  = match find T s with
    | Some (b, r) => Some (F (pos + length b + length T) r ((i, b) :: c))
    | None => None
    end.
Proof.
  simpl.
  rewrite (star_lazy_find T
             (fun pos' s'' c' =>
                F (pos' + length T) s'' ((i, firstn (pos' - pos) s) :: c'))).
  destruct (find T s) as [[b r]|] eqn:E; [|reflexivity].
  apply find_Some in E. destruct E as [-> _].
  replace (pos + length b - pos) with (length b + 0) by lia.
  now rewrite firstn_app_2, app_nil_r.
Qed.

(** A suffix of a text without [p] is without [p]. *)
Lemma find_None_suffix (p w s : str) :
  find p (w ++ s) = None -> find p s = None.
Proof.
  intros Hn. destruct (find p s) as [[a r]|] eqn:E; [|reflexivity].
  exfalso. apply (find_None _ _ Hn). apply occurs_suffix.
  apply find_Some in E. destruct E as [-> _]. now exists a, r.
Qed.

(** ** Soundness of the matcher *)

Lemma star_greedy_sound {R : Type} (p : char -> bool) (k : cont R) :
  forall s pos c v,
    star_greedy p k pos s c = Some v ->
    exists w s', s = w ++ s' /\ Forall (fun a => p a = true) w
                 /\ k (pos + length w) s' c = Some v.
Proof.
  induction s as [|x s IH]; intros pos c v Hv; simpl in Hv.
  - exists [], []. simpl. rewrite Nat.add_0_r. auto.
  - destruct (p x) eqn:Px.
    + destruct (star_greedy p k (S pos) s c) as [v'|] eqn:E.
      * injection Hv as ->. destruct (IH _ _ _ E) as (w & s' & -> & Fw & Hk).
        exists (x :: w), s'. simpl. rewrite Nat.add_succ_r. auto.
      * exists [], (x :: s). simpl. rewrite Nat.add_0_r. auto.
    + exists [], (x :: s). simpl. rewrite Nat.add_0_r. auto.
Qed.

Lemma star_lazy_sound {R : Type} (p : char -> bool) (k : cont R) :
  forall s pos c v,
    star_lazy p k pos s c = Some v ->
    exists w s', s = w ++ s' /\ Forall (fun a => p a = true) w
                 /\ k (pos + length w) s' c = Some v.
Proof.
  induction s as [|x s IH]; intros pos c v Hv; simpl in Hv.
  - destruct (k pos [] c) eqn:E; [|discriminate].
    exists [], []. simpl. rewrite Nat.add_0_r. rewrite E. auto.
  - destruct (k pos (x :: s) c) eqn:E.
    + exists [], (x :: s). simpl. rewrite Nat.add_0_r, E. auto.
    + destruct (p x) eqn:Px; [|discriminate].
      destruct (IH _ _ _ Hv) as (w & s' & -> & Fw & Hk).
      exists (x :: w), s'. simpl. rewrite Nat.add_succ_r. auto.
Qed.

Lemma exec_sound {R : Type} (r : regex) :
  forall (k : cont R) pos s c v,
    exec r k pos s c = Some v ->
    exists w s' c',
      s = w ++ s' /\ lang r w /\ caps_after r c c'
      /\ k (pos + length w) s' c' = Some v.
Proof.
  induction r as [l|p|g p|j r IH|r1 IH1 r2 IH2| |]; intros k pos s c v Hv;
    simpl in Hv.
  - destruct (strip l s) as [s'|] eqn:E; [|discriminate].
    apply strip_Some in E. exists l, s', c. repeat split; auto; intro i; reflexivity.
  - destruct s as [|a s']; [discriminate|].
    destruct (p a) eqn:Pa; [|discriminate].
    exists [a], s', c. simpl. rewrite Nat.add_1_r.
    repeat split; eauto; intro i; reflexivity.
  - destruct g.
    + apply star_greedy_sound in Hv; destruct Hv as (w & s' & -> & Fw & Hk).
      exists w, s', c. repeat split; auto; intro i; reflexivity.
    + apply star_lazy_sound in Hv; destruct Hv as (w & s' & -> & Fw & Hk).
      exists w, s', c. repeat split; auto; intro i; reflexivity.
  - apply IH in Hv; destruct Hv as (w & s' & c1 & -> & Lw & Hc & Hk).
    replace (pos + length w - pos) with (length w + 0) in Hk by lia.
    rewrite firstn_app_2, app_nil_r in Hk.
    exists w, s', ((j, w) :: c1). repeat split; auto.
    intro i. specialize (Hc i). simpl.
    destruct (Nat.eqb i j) eqn:Eij.
    + exists w. split; auto.
    + exact Hc.
  - apply IH1 in Hv; destruct Hv as (w1 & s1 & c1 & -> & L1 & Hc1 & Hk1).
    apply IH2 in Hk1; destruct Hk1 as (w2 & s2 & c2 & -> & L2 & Hc2 & Hk2).
    exists (w1 ++ w2), s2, c2. rewrite <- app_assoc, length_app, Nat.add_assoc.
    repeat split; auto.
    + simpl. exists w1, w2. auto.
    + intro i. specialize (Hc1 i). specialize (Hc2 i). simpl.
      destruct (groupBody i r2); [exact Hc2|].
      destruct (groupBody i r1); [|congruence].
      destruct Hc1 as (g & Hg & Lg). exists g. split; [congruence|auto].
  - destruct (Nat.eqb pos 0); [|discriminate].
    exists [], s, c. simpl. rewrite Nat.add_0_r. repeat split; auto; intro i; reflexivity.
  - destruct s; [|discriminate].
    exists [], [], c. simpl. rewrite Nat.add_0_r. repeat split; auto; intro i; reflexivity.
Qed.

(** A match found by [search] lies in the text and its groups hold words
    of their bodies. *)
Lemma searchFrom_sound (r : regex) :
  forall s pos m,
    searchFrom r pos s = Some m ->
    exists a w,
      s = a ++ w ++ m_rest m /\ m_start m = pos + length a /\ lang r w
      /\ caps_after r [] (m_caps m).
Proof.
  induction s as [|x s IH]; intros pos m Hm; simpl in Hm.
  - destruct (matchAt r pos []) as [m'|] eqn:E; [|discriminate].
    injection Hm as ->. unfold matchAt in E.
    apply exec_sound in E; destruct E as (w & s' & c' & Hs & Lw & Hc & Hk).
    injection Hk as <-. exists [], w. simpl. rewrite Nat.add_0_r. auto.
  - destruct (matchAt r pos (x :: s)) as [m'|] eqn:E.
    + injection Hm as ->. unfold matchAt in E.
      apply exec_sound in E; destruct E as (w & s' & c' & Hs & Lw & Hc & Hk).
      injection Hk as <-. exists [], w. simpl. rewrite Nat.add_0_r. auto.
    + apply IH in Hm; destruct Hm as (a & w & -> & Hst & Lw & Hc).
      exists (x :: a), w. simpl. rewrite Nat.add_succ_r. auto.
Qed.

(** ** Searching for a pattern that starts with a literal *)

(** When what follows the literal depends on the text alone, and fails on
    a suffix of any text it fails on, the leftmost match starts at the
    first occurrence of the literal. *)
Lemma searchFrom_after_lit (H : str) (K : regex)
      (M : nat -> str -> option rmatch) :
  (forall pos0 pos r,
      exec K (fun _ s' c' => Some (mkMatch pos0 s' c')) pos r [] = M pos0 r) ->
  (forall pos0 pos1 w r, M pos0 (w ++ r) = None -> M pos1 r = None) ->
  forall s pos,
    searchFrom (Lit H >> K) pos s
    = match find H s with
      | Some (a, r) => M (pos + length a) r
      | None => None
      end.
Proof.
  intros HK Hmono.
  assert (Hat : forall pos s,
             matchAt (Lit H >> K) pos s
             = match strip H s with Some r => M pos r | None => None end).
  { intros pos s. unfold matchAt. cbn [exec].
    destruct (strip H s); [apply HK|reflexivity]. }
  induction s as [|x s IH]; intros pos; cbn [searchFrom find]; rewrite Hat.
  - destruct (strip H []) as [r|]; [|reflexivity].
    rewrite Nat.add_0_r. now destruct (M pos r).
  - destruct (strip H (x :: s)) as [r|] eqn:E.
    + cbn [length]. rewrite Nat.add_0_r.
      destruct (M pos r) as [m|] eqn:Em; [reflexivity|].
      rewrite IH. destruct (find H s) as [[a' r']|] eqn:Eh; [|reflexivity].
      apply strip_Some in E. apply find_Some in Eh. destruct Eh as [Hs _].
      rewrite Hs in E.
      change (x :: a' ++ H ++ r') with ((x :: a') ++ H ++ r') in E.
      rewrite app_assoc in E. symmetry in E.
      destruct (app_eq_split _ H ((x :: a') ++ H) r r' E) as (w & _ & Hw).
      * rewrite length_app. simpl. lia.
      * subst r. eapply Hmono. exact Em.
    + rewrite IH. destruct (find H s) as [[a' r']|]; [|reflexivity].
      cbn [length]. now rewrite Nat.add_succ_r.
Qed.

(** The pattern [H(any*?)T]: the first [H], then the first [T] after
    it. *)
Lemma search_bracket (H T : str) (s : str) :
  search (Lit H >> Group 1 (Star false anyChar) >> Lit T) s
  = match find H s with
    | Some (a, r) =>
        match find T r with
        | Some (b, c) => Some (mkMatch (length a) c [(1, b)])
        | None => None
        end
    | None => None
    end.
Proof.
  unfold search.
  rewrite (searchFrom_after_lit H (Group 1 (Star false anyChar) >> Lit T)
             (fun pos0 r =>
                match find T r with
                | Some (b, c) => Some (mkMatch pos0 c [(1, b)])
                | None => None
                end)).
  - reflexivity.
  - intros pos0 pos r.
    rewrite (exec_group_lazy_lit 1 T (fun _ s' c' => mkMatch pos0 s' c')).
    reflexivity.
  - intros pos0 pos1 w r Hn.
    destruct (find T (w ++ r)) as [[b c]|] eqn:E; [discriminate|].
    now rewrite (find_None_suffix _ _ _ E).
Qed.

(** A greedy run of any characters in front of [$] takes the rest of
    the text. *)
Lemma star_greedy_any_end {R : Type} (k : cont R) :
  forall s pos c v,
    k (pos + length s) [] c = Some v ->
    star_greedy anyChar k pos s c = Some v.
Proof.
  induction s as [|x s IH]; intros pos c v Hk; simpl in *.
  - now rewrite Nat.add_0_r in Hk.
  - rewrite (IH (S pos) c v); [reflexivity|].
    now rewrite Nat.add_succ_r in Hk.
Qed.

(** The pattern [H(any* )$]: the first [H] and all that follows it. *)
Lemma search_to_end (H : str) (s : str) :
  search (Lit H >> Group 1 (Star true anyChar) >> Eol) s
  = match find H s with
    | Some (a, r) => Some (mkMatch (length a) [] [(1, r)])
    | None => None
    end.
Proof.
  unfold search.
  rewrite (searchFrom_after_lit H (Group 1 (Star true anyChar) >> Eol)
             (fun pos0 r => Some (mkMatch pos0 [] [(1, r)]))).
  - reflexivity.
  - intros pos0 pos r. cbn [exec].
    apply star_greedy_any_end. cbn.
    replace (pos + length r - pos) with (length r) by lia.
    now rewrite firstn_all.
  - discriminate.
Qed.

(** ** Greedy runs in front of a literal, as the longer variant has them *)

Lemma dropWhileEnd_nil_iff (p : char -> bool) (s : str) :
  dropWhileEnd p s = [] <-> Forall (fun a => p a = true) s.
Proof.
  induction s as [|x s IH]; simpl; [split; auto|].
  destruct (dropWhileEnd p s) as [|y r] eqn:E.
  - destruct (p x) eqn:Px; split; intro Hx; try discriminate; auto.
    + constructor; [exact Px|]. now apply IH.
    + inversion Hx; congruence.
  - split; [discriminate|]. intro Hx. inversion Hx as [|? ? _ Hs]; subst.
    destruct IH as [_ IH]. now specialize (IH Hs).
Qed.

Lemma dropWhile_all (p : char -> bool) (w r : str) :
  Forall (fun a => p a = true) w -> dropWhile p (w ++ r) = dropWhile p r.
Proof.
  induction 1 as [|x w Px _ IH]; simpl; [reflexivity|]. now rewrite Px.
Qed.

(** A literal whose first character is outside the class cannot start
    inside the run. *)
Lemma strip_cons_class (p : char -> bool) (t x : char) (T' s : str) :
  p t = false -> p x = true -> strip (t :: T') (x :: s) = None.
Proof.
  intros Pt Px. simpl. destruct (N.eqb_spec t x); [congruence|reflexivity].
Qed.

Lemma find_cons_class (p : char -> bool) (t x : char) (T' s : str) :
  p t = false -> p x = true ->
  find (t :: T') (x :: s)
  = match find (t :: T') s with
    | Some (b, r) => Some (x :: b, r)
    | None => None
    end.
Proof.
  intros Pt Px. cbn [find]. now rewrite (strip_cons_class p _ _ _ _ Pt Px).
Qed.

Lemma find_dropWhile (p : char -> bool) (t : char) (T' : str) :
  p t = false ->
  forall s,
    find (t :: T') (dropWhile p s)
    = match find (t :: T') s with
      | Some (b, r) => Some (dropWhile p b, r)
      | None => None
      end.
Proof.
  intros Pt. induction s as [|x s IH].
  - simpl. reflexivity.
  - cbn [dropWhile]. destruct (p x) eqn:Px.
    + rewrite IH, (find_cons_class p _ _ _ _ Pt Px).
      destruct (find (t :: T') s) as [[b r]|]; [|reflexivity].
      simpl. now rewrite Px.
    + destruct (find (t :: T') (x :: s)) as [[b r]|] eqn:E; [|reflexivity].
      destruct b as [|y b]; [reflexivity|].
      apply find_Some in E. destruct E as [E _]. injection E as <- _.
      simpl. now rewrite Px.
Qed.

Lemma star_greedy_then_lit {R : Type} (p : char -> bool) (t : char)
      (T' : str) (G : str -> caps -> R) :
  p t = false ->
  forall s pos c,
    star_greedy p (exec (Lit (t :: T')) (fun _ s' c' => Some (G s' c')))
                pos s c
    = match strip (t :: T') (dropWhile p s) with
      | Some rest => Some (G rest c)
      | None => None
      end.
Proof.
  intros Pt. induction s as [|x s IH]; intros pos c.
  - reflexivity.
  - cbn [star_greedy dropWhile]. destruct (p x) eqn:Px.
    + rewrite IH. cbn [exec]. rewrite (strip_cons_class p _ _ _ _ Pt Px).
      now destruct (strip (t :: T') (dropWhile p s)).
    + reflexivity.
Qed.

(** A greedy run in front of a continuation that depends on the text
    alone. *)
Lemma star_greedy_indep {R : Type} (p : char -> bool) (K : cont R)
      (M : str -> caps -> option R) :
  (forall pos u c, K pos u c = M u c) ->
  (forall x u c, p x = true -> M u c = None -> M (x :: u) c = None) ->
  forall s pos c, star_greedy p K pos s c = M (dropWhile p s) c.
Proof.
  intros HK Hx.
  assert (Hdrop : forall s c, M (dropWhile p s) c = None -> M s c = None).
  { induction s as [|x s IH]; intros c Hn; simpl in Hn; [exact Hn|].
    destruct (p x) eqn:Px; [|exact Hn]. apply Hx; auto. }
  induction s as [|x s IH]; intros pos c; cbn [star_greedy dropWhile].
  - apply HK.
  - destruct (p x) eqn:Px; [|apply HK].
    rewrite IH. destruct (M (dropWhile p s) c) eqn:E; [reflexivity|].
    rewrite HK. apply Hx; auto.
Qed.

Lemma dropWhileEnd_cons (p : char -> bool) (x : char) (b : str) :
  (p x = true -> ~ Forall (fun a => p a = true) b) ->
  dropWhileEnd p (x :: b) = x :: dropWhileEnd p b.
Proof.
  intros Hx. simpl. destruct (dropWhileEnd p b) as [|y r] eqn:E; [|reflexivity].
  destruct (p x) eqn:Px; [|reflexivity].
  exfalso. apply Hx; [reflexivity|]. now apply dropWhileEnd_nil_iff.
Qed.

(** A lazy run of any characters in front of [class* T]: it stops where
    only characters of the class are left before the first [T]. *)
Lemma star_lazy_find_run {R : Type} (p : char -> bool) (t : char) (T' : str)
      (G : nat -> str -> caps -> R) :
  p t = false ->
  forall s pos c,
    star_lazy anyChar
      (fun pos' s' c' =>
         match strip (t :: T') (dropWhile p s') with
         | Some s'' => Some (G pos' s'' c')
         | None => None
         end) pos s c
    = match find (t :: T') s with
      | Some (b, r) => Some (G (pos + length (dropWhileEnd p b)) r c)
      | None => None
      end.
Proof.
  intros Pt.
  assert (Hhit : forall s rest,
             strip (t :: T') (dropWhile p s) = Some rest ->
             exists w, find (t :: T') s = Some (w, rest)
                       /\ Forall (fun a => p a = true) w).
  { induction s as [|x s IH]; intros rest Hs.
    - simpl in Hs. discriminate.
    - cbn [dropWhile] in Hs. destruct (p x) eqn:Px.
      + destruct (IH _ Hs) as (w & Hw & Fw). exists (x :: w).
        rewrite (find_cons_class p _ _ _ _ Pt Px), Hw. auto.
      + exists []. cbn [find]. rewrite Hs. auto. }
  induction s as [|x s IH]; intros pos c.
  - reflexivity.
  - cbn [star_lazy].
    destruct (strip (t :: T') (dropWhile p (x :: s))) as [rest|] eqn:E.
    + destruct (Hhit _ _ E) as (w & -> & Fw).
      apply dropWhileEnd_nil_iff in Fw. rewrite Fw. simpl.
      now rewrite Nat.add_0_r.
    + unfold anyChar at 1. rewrite IH.
      assert (Es : strip (t :: T') (x :: s) = None).
      { cbn [dropWhile] in E. destruct (p x) eqn:Px; [|exact E].
        apply (strip_cons_class p); auto. }
      cbn [find]. rewrite Es.
      destruct (find (t :: T') s) as [[b r]|] eqn:Ef; [|reflexivity].
      rewrite dropWhileEnd_cons.
      * simpl. now rewrite Nat.add_succ_r.
      * intros Px Fb. apply find_Some in Ef. destruct Ef as [-> _].
        cbn [dropWhile] in E. rewrite Px in E.
        rewrite (dropWhile_all p b _ Fb) in E.
        simpl in E. rewrite Pt, N.eqb_refl in E.
        rewrite strip_app in E. discriminate.
Qed.

Lemma star_lazy_ext {R : Type} (p : char -> bool) (k1 k2 : cont R) :
  (forall pos s c, k1 pos s c = k2 pos s c) ->
  forall s pos c, star_lazy p k1 pos s c = star_lazy p k2 pos s c.
Proof.
  intros Hk. induction s as [|x s IH]; intros pos c; simpl; rewrite Hk.
  - reflexivity.
  - destruct (k2 pos (x :: s) c); [reflexivity|].
    destruct (p x); [apply IH|reflexivity].
Qed.

Lemma dropWhileEnd_prefix (p : char -> bool) (b : str) :
  exists w, b = dropWhileEnd p b ++ w.
Proof.
  induction b as [|x b [w IH]]; simpl; [now exists []|].
  destruct (dropWhileEnd p b) as [|y r].
  - destruct (p x).
    + now exists (x :: b).
    + exists w. simpl in *. now f_equal.
  - exists w. simpl in *. now f_equal.
Qed.

Lemma firstn_dropWhileEnd (p : char -> bool) (b r : str) (pos : nat) :
  firstn (pos + length (dropWhileEnd p b) - pos) (b ++ r) = dropWhileEnd p b.
Proof.
  destruct (dropWhileEnd_prefix p b) as [w Hw].
  rewrite Hw at 2. rewrite <- app_assoc.
  replace (pos + length (dropWhileEnd p b) - pos)
    with (length (dropWhileEnd p b) + 0) by lia.
  now rewrite firstn_app_2, app_nil_r.
Qed.

(** The pattern [H nl* (any*?) nl* T] for a [T] that does not start with
    a newline: the text between the first [H] and the first [T] after it,
    without the newlines at its ends. *)
Lemma search_padded_bracket (H T : str) (s : str) :
  (exists t T', T = t :: T' /\ isNewline t = false) ->
  search (Lit H >> Star true isNewline >> Group 1 (Star false anyChar)
              >> Star true isNewline >> Lit T) s
  = match find H s with
    | Some (a, r) =>
        match find T r with
        | Some (b, c) =>
            Some (mkMatch (length a) c
                    [(1, dropWhileEnd isNewline (dropWhile isNewline b))])
        | None => None
        end
    | None => None
    end.
Proof.
  intros (t & T' & -> & Pt). unfold search.
  rewrite (searchFrom_after_lit H _
             (fun pos0 r =>
                match find (t :: T') r with
                | Some (b, c) =>
                    Some (mkMatch pos0 c
                      [(1, dropWhileEnd isNewline (dropWhile isNewline b))])
                | None => None
                end)).
  - reflexivity.
  - intros pos0 pos r. cbn [exec].
    rewrite (star_greedy_indep isNewline _
               (fun u c =>
                  match find (t :: T') u with
                  | Some (b, rest) =>
                      Some (mkMatch pos0 rest
                              ((1, dropWhileEnd isNewline b) :: c))
                  | None => None
                  end)).
    + rewrite (find_dropWhile isNewline t T' Pt).
      destruct (find (t :: T') r) as [[b c]|]; reflexivity.
    + intros pos' u c.
      rewrite (star_lazy_ext anyChar _
                 (fun p' s' c' =>
                    match strip (t :: T') (dropWhile isNewline s') with
                    | Some s'' =>
                        Some (mkMatch pos0 s''
                                ((1, firstn (p' - pos') u) :: c'))
                    | None => None
                    end)).
      * rewrite (star_lazy_find_run isNewline t T'
                   (fun p' s'' c' =>
                      mkMatch pos0 s'' ((1, firstn (p' - pos') u) :: c')) Pt).
        destruct (find (t :: T') u) as [[b rest]|] eqn:E; [|reflexivity].
        apply find_Some in E. destruct E as [-> _].
        now rewrite firstn_dropWhileEnd.
      * intros p' s' c'.
        apply (star_greedy_then_lit isNewline t T'
                 (fun s'' c'' => mkMatch pos0 s'' c'') Pt).
    + intros x u c Px Hn.
      rewrite (find_cons_class isNewline _ _ _ _ Pt Px).
      now destruct (find (t :: T') u) as [[b rest]|].
  - intros pos0 pos1 w r Hn.
    destruct (find (t :: T') (w ++ r)) as [[b c]|] eqn:E; [discriminate|].
    now rewrite (find_None_suffix _ _ _ E).
Qed.

Lemma star_lazy_any_end {R : Type} (G : nat -> str -> caps -> R) :
  forall s pos c,
    star_lazy anyChar
      (fun pos' s' c' =>
         match s' with [] => Some (G pos' s' c') | _ :: _ => None end) pos s c
    = Some (G (pos + length s) [] c).
Proof.
  induction s as [|x s IH]; intros pos c; simpl.
  - now rewrite Nat.add_0_r.
  - now rewrite IH, Nat.add_succ_r.
Qed.

(** The pattern [H nl* (any*?) $]: all that follows the first [H], without
    the newlines at its start. *)
Lemma search_padded_to_end (H : str) (s : str) :
  search (Lit H >> Star true isNewline >> Group 1 (Star false anyChar) >> Eol) s
  = match find H s with
    | Some (a, r) => Some (mkMatch (length a) [] [(1, dropWhile isNewline r)])
    | None => None
    end.
Proof.
  unfold search.
  rewrite (searchFrom_after_lit H _
             (fun pos0 r =>
                Some (mkMatch pos0 [] [(1, dropWhile isNewline r)]))).
  - reflexivity.
  - intros pos0 pos r. cbn [exec].
    rewrite (star_greedy_indep isNewline _
               (fun u c => Some (mkMatch pos0 [] ((1, u) :: c)))).
    + reflexivity.
    + intros pos' u c.
      rewrite (star_lazy_any_end
                 (fun p' s' c' =>
                    mkMatch pos0 s' ((1, firstn (p' - pos') u) :: c'))).
      replace (pos' + length u - pos') with (length u) by lia.
      now rewrite firstn_all.
    + discriminate.
  - discriminate.
Qed.

(** ** Trimming and splitting *)

Lemma isNewline_isWhite (c : char) : isNewline c = true -> isWhite c = true.
Proof.
  unfold isNewline, LF. intros E. apply N.eqb_eq in E. now subst.
Qed.

Lemma dropWhile_blank (s : str) : blank s -> dropWhile isWhite s = [].
Proof.
  induction 1 as [|x s Hx _ IH]; simpl; [reflexivity|]. now rewrite Hx.
Qed.

Lemma trim_blank (s : str) : blank s -> trim s = [].
Proof.
  intros Hb. unfold trim. now rewrite dropWhile_blank.
Qed.

Lemma dropWhile_sub (p q : char -> bool) :
  (forall c, p c = true -> q c = true) ->
  forall s, dropWhile q (dropWhile p s) = dropWhile q s.
Proof.
  intros Hpq. induction s as [|x s IH]; simpl; [reflexivity|].
  destruct (p x) eqn:Px.
  - now rewrite (Hpq _ Px).
  - reflexivity.
Qed.

Lemma dropWhile_dropWhileEnd (p q : char -> bool) :
  (forall c, p c = true -> q c = true) ->
  forall s, dropWhile q (dropWhileEnd p s) = dropWhileEnd p (dropWhile q s).
Proof.
  intros Hpq. induction s as [|x s IH]; [reflexivity|].
  cbn [dropWhile]. destruct (q x) eqn:Qx.
  - rewrite <- IH. cbn [dropWhileEnd].
    destruct (dropWhileEnd p s) as [|y r].
    + destruct (p x); simpl; [reflexivity|now rewrite Qx].
    + cbn [dropWhile]. now rewrite Qx.
  - assert (Px : p x = false).
    { destruct (p x) eqn:Px; [|reflexivity]. rewrite (Hpq _ Px) in Qx.
      discriminate. }
    cbn [dropWhileEnd]. destruct (dropWhileEnd p s) as [|y r].
    + rewrite Px. simpl. now rewrite Qx.
    + simpl. now rewrite Qx.
Qed.

Lemma dropWhileEnd_sub (p q : char -> bool) :
  (forall c, p c = true -> q c = true) ->
  forall s, dropWhileEnd q (dropWhileEnd p s) = dropWhileEnd q s.
Proof.
  intros Hpq. induction s as [|x s IH]; [reflexivity|].
  cbn [dropWhileEnd]. rewrite <- IH.
  destruct (dropWhileEnd p s) as [|y r] eqn:E.
  - cbn [dropWhileEnd]. destruct (p x) eqn:Px.
    + now rewrite (Hpq _ Px).
    + simpl. reflexivity.
  - cbn [dropWhileEnd]. reflexivity.
Qed.

(** Newlines taken off an end do not change what [trim] gives. *)
Lemma trim_dropWhile (p : char -> bool) (s : str) :
  (forall c, p c = true -> isWhite c = true) ->
  trim (dropWhile p s) = trim s.
Proof.
  intros Hp. unfold trim. now rewrite (dropWhile_sub p isWhite Hp).
Qed.

Lemma trim_dropWhileEnd (p : char -> bool) (s : str) :
  (forall c, p c = true -> isWhite c = true) ->
  trim (dropWhileEnd p s) = trim s.
Proof.
  intros Hp. unfold trim.
  rewrite (dropWhile_dropWhileEnd p isWhite Hp).
  now rewrite (dropWhileEnd_sub p isWhite Hp).
Qed.

Lemma split_not_nil (sep : char) (s : str) : split sep s <> [].
Proof.
  destruct s as [|x s]; simpl; [discriminate|].
  destruct (N.eqb x sep); [discriminate|].
  destruct (split sep s); discriminate.
Qed.

Lemma split_length (sep : char) (s : str) : 1 <= length (split sep s).
Proof.
  pose proof (split_not_nil sep s). destruct (split sep s); simpl; [congruence|lia].
Qed.

(** ** The bullet pattern *)

Lemma searchFrom_bol_later (K : regex) :
  forall s pos, searchFrom (Bol >> K) (S pos) s = None.
Proof.
  induction s as [|x s IH]; intros pos; simpl; [reflexivity|apply IH].
Qed.

Lemma search_bullet (b : char -> bool) (s : str) :
  search (Bol >> Cls b >> Star true isWhite) s
  = match s with
    | x :: s' =>
        if b x then Some (mkMatch 0 (dropWhile isWhite s') []) else None
    | [] => None
    end.
Proof.
  unfold search. destruct s as [|x s]; [reflexivity|].
  cbn [searchFrom]. unfold matchAt. cbn [exec Nat.eqb].
  destruct (b x).
  - rewrite (star_greedy_indep isWhite _ (fun u c => Some (mkMatch 0 u c)));
      [reflexivity|reflexivity|discriminate].
  - apply searchFrom_bol_later.
Qed.

Lemma replace_bullet (b : char -> bool) (s : str) :
  replace_empty (Bol >> Cls b >> Star true isWhite) s
  = match s with
    | x :: s' => if b x then dropWhile isWhite s' else s
    | [] => []
    end.
Proof.
  unfold replace_empty. rewrite search_bullet.
  destruct s as [|x s]; [reflexivity|]. now destruct (b x).
Qed.

(** What the callback of the next-steps lines gives: a leading bullet is
    dropped, then the line is trimmed. *)
Lemma V1_cleanStep_eq (l : str) :
  V1.cleanStep l
  = match l with
    | x :: l' => if V1.bullet x then trim l' else trim l
    | [] => []
    end.
Proof.
  unfold V1.cleanStep, V1.reBullet. rewrite replace_bullet.
  destruct l as [|x l]; [reflexivity|].
  destruct (V1.bullet x); [|reflexivity].
  apply trim_dropWhile. auto.
Qed.

Lemma V2_cleanStep_eq (l : str) :
  V2.cleanStep l
  = match l with
    | x :: l' => if V2.bullet x then trim l' else trim l
    | [] => []
    end.
Proof.
  unfold V2.cleanStep, V2.reBullet. rewrite replace_bullet.
  destruct l as [|x l]; [reflexivity|].
  destruct (V2.bullet x); [|reflexivity].
  apply trim_dropWhile. auto.
Qed.

(** ** The line pattern *)

Lemma search_sound (r : regex) (s : str) (m : rmatch) :
  search r s = Some m ->
  exists a w,
    s = a ++ w ++ m_rest m /\ m_start m = length a /\ lang r w
    /\ caps_after r [] (m_caps m).
Proof.
  intros Hm. apply searchFrom_sound in Hm.
  destruct Hm as (a & w & Hs & Hst & Hl & Hc). exists a, w. auto.
Qed.

(** A match of the line pattern has its three groups: two runs without a
    line terminator and a run of at least one digit. *)
Lemma reLine_groups (line : str) (m : rmatch) :
  search V1.reLine line = Some m ->
  exists t d n,
    group 1 m = Ok t /\ group 2 m = Ok d /\ group 3 m = Ok n
    /\ Forall (fun a => dot a = true) t
    /\ Forall (fun a => dot a = true) d
    /\ exists a n', n = a :: n' /\ isDigit a = true
                    /\ Forall (fun a => isDigit a = true) n'.
Proof.
  intros Hm. apply search_sound in Hm.
  destruct Hm as (_ & _ & _ & _ & _ & Hc).
  pose proof (Hc 1) as (t & Ht & Lt).
  pose proof (Hc 2) as (d & Hd & Ld).
  pose proof (Hc 3) as (n & Hn & Ln).
  cbn in Lt, Ld, Ln.
  destruct Ln as (w1 & w2 & -> & (a & -> & Pa) & Fw).
  exists t, d, ([a] ++ w2). unfold group. rewrite Ht, Hd, Hn.
  repeat split; auto. exists a, w2. auto.
Qed.

Lemma V1_lineRecord_None (line : str) :
  V1.lineRecord line = None <-> search V1.reLine line = None.
Proof.
  unfold V1.lineRecord. destruct (search V1.reLine line) as [m|] eqn:E.
  - destruct (reLine_groups _ _ E) as (t & d & n & -> & -> & -> & _).
    split; discriminate.
  - split; reflexivity.
Qed.

Lemma V2_lineRecord_None (line : str) :
  V2.lineRecord line = None <-> search V2.reLine line = None.
Proof.
  unfold V2.lineRecord.
  change V2.reLine with V1.reLine.
  destruct (search V1.reLine line) as [m|] eqn:E.
  - destruct (reLine_groups _ _ E) as (t & d & n & -> & -> & -> & _).
    split; discriminate.
  - split; reflexivity.
Qed.

Lemma V1_recLine_eq (recs : list Recommendation) (line : str) :
  V1.recLine recs line
  = Ok (recs ++ match V1.lineRecord line with Some r => [r] | None => [] end).
Proof.
  unfold V1.recLine, V1.lineRecord.
  destruct (search V1.reLine line) as [m|] eqn:E.
  - destruct (reLine_groups _ _ E) as (t & d & n & -> & -> & -> & _).
    reflexivity.
  - now rewrite app_nil_r.
Qed.

Lemma V2_recLine_eq (recs : list Recommendation) (line : str) :
  V2.recLine recs line
  = Ok (recs ++ match V2.lineRecord line with Some r => [r] | None => [] end).
Proof.
  unfold V2.recLine, V2.lineRecord.
  change V2.reLine with V1.reLine.
  destruct (search V1.reLine line) as [m|] eqn:E.
  - destruct (reLine_groups _ _ E) as (t & d & n & -> & -> & -> & _).
    reflexivity.
  - now rewrite app_nil_r.
Qed.

Lemma forEach_records
      (f : list Recommendation -> str -> result (list Recommendation))
      (g : str -> option Recommendation) :
  (forall recs line,
      f recs line = Ok (recs ++ match g line with Some r => [r] | None => [] end)) ->
  forall lines recs, forEach f lines recs = Ok (recs ++ filterMap g lines).
Proof.
  intros Hf. induction lines as [|l lines IH]; intros recs; simpl.
  - now rewrite app_nil_r.
  - rewrite Hf. simpl. rewrite IH. destruct (g l); simpl.
    + now rewrite <- app_assoc.
    + now rewrite app_nil_r.
Qed.

(** ** [parseAnalysis] in terms of the first occurrences of the markers *)

Lemma V1_parseAnalysis_eq (text : str) :
  V1.parseAnalysis text
  = Ok (mkAnalysis
          match between hdrProfile (js "**TOP 3") text with
          | Some b => trim b
          | None => []
          end
          match between hdrTop3 (js "**NEXT") text with
          | Some b => filterMap V1.lineRecord (split LF (trim b))
          | None => []
          end
          match after hdrNext text with
          | Some r => List.map V1.cleanStep (split LF (trim r))
          | None => []
          end).
Proof.
  unfold V1.parseAnalysis, V1.reSummary, V1.reRecs, V1.reNext, between, after.
  rewrite !search_bracket, search_to_end.
  assert (Hrec : forall b,
             forEach V1.recLine (split LF (trim b)) []
             = Ok (filterMap V1.lineRecord (split LF (trim b)))).
  { intros b. now rewrite (forEach_records _ _ V1_recLine_eq). }
  destruct (find hdrProfile text) as [[a1 r1]|];
    [destruct (find (js "**TOP 3") r1) as [[b1 c1]|]|];
    (destruct (find hdrTop3 text) as [[a2 r2]|];
     [destruct (find (js "**NEXT") r2) as [[b2 c2]|]|]);
    destruct (find hdrNext text) as [[a3 r3]|];
    cbn [bind group capture m_caps Nat.eqb summary recommendations nextSteps];
    rewrite ?Hrec; reflexivity.
Qed.

Lemma header_not_newline (T : str) :
  T = hdrTop3 \/ T = hdrNext ->
  exists t T', T = t :: T' /\ isNewline t = false.
Proof.
  intros [-> | ->]; eexists _, _; split; reflexivity.
Qed.

Lemma V2_parseAnalysis_eq (text : str) :
  V2.parseAnalysis text
  = Ok (mkAnalysis
          match between hdrProfile hdrTop3 text with
          | Some b => trim b
          | None => []
          end
          match between hdrTop3 hdrNext text with
          | Some b => filterMap V2.lineRecord (split LF (trim b))
          | None => []
          end
          match after hdrNext text with
          | Some r => List.map V2.cleanStep (split LF (trim r))
          | None => []
          end).
Proof.
  unfold V2.parseAnalysis, V2.reSummary, V2.reRecs, V2.reNext, between, after.
  rewrite search_padded_to_end.
  rewrite !search_padded_bracket
    by (apply header_not_newline; auto).
  assert (Hrec : forall b,
             forEach V2.recLine (split LF (trim b)) []
             = Ok (filterMap V2.lineRecord (split LF (trim b)))).
  { intros b. now rewrite (forEach_records _ _ V2_recLine_eq). }
  assert (Htrim : forall b,
             trim (dropWhileEnd isNewline (dropWhile isNewline b)) = trim b).
  { intros b. rewrite (trim_dropWhileEnd isNewline _ isNewline_isWhite).
    apply (trim_dropWhile isNewline _ isNewline_isWhite). }
  pose proof (fun r => trim_dropWhile isNewline r isNewline_isWhite) as Htrim'.
  destruct (find hdrProfile text) as [[a1 r1]|];
    [destruct (find hdrTop3 r1) as [[b1 c1]|]|];
    (destruct (find hdrTop3 text) as [[a2 r2]|];
     [destruct (find hdrNext r2) as [[b2 c2]|]|]);
    destruct (find hdrNext text) as [[a3 r3]|];
    cbn [bind group capture m_caps Nat.eqb summary recommendations nextSteps];
    rewrite ?Htrim, ?Htrim', ?Hrec;
    cbn [bind group capture m_caps Nat.eqb summary recommendations nextSteps];
    rewrite ?Htrim, ?Htrim', ?Hrec; reflexivity.
Qed.

(** ** The markers, declaratively *)

Lemma after_first (o a r : str) :
  first_at o a r -> after o (a ++ o ++ r) = Some r.
Proof.
  intros Hf. unfold after. now rewrite (find_first _ _ _ Hf).
Qed.

Lemma after_missing (o s : str) : ~ occurs o s -> after o s = None.
Proof.
  intros Hn. unfold after. destruct (find o s) as [[a r]|] eqn:E; [|reflexivity].
  exfalso. apply Hn. apply find_Some in E. destruct E as [-> _]. now exists a, r.
Qed.

Lemma after_occurs (o s : str) :
  occurs o s ->
  exists a r, s = a ++ o ++ r /\ first_at o a r /\ after o s = Some r.
Proof.
  intros Ho. destruct (find_occurs _ _ Ho) as (a & r & E).
  exists a, r. unfold after. rewrite E.
  apply find_Some in E. destruct E as [-> Hf]. auto.
Qed.

Lemma between_first (o c a b r : str) :
  first_at o a (b ++ c ++ r) -> first_at c b r ->
  between o c (a ++ o ++ b ++ c ++ r) = Some b.
Proof.
  intros Ho Hc. unfold between.
  now rewrite (find_first _ _ _ Ho), (find_first _ _ _ Hc).
Qed.

Lemma between_no_opening (o c s : str) : ~ occurs o s -> between o c s = None.
Proof.
  intros Hn. unfold between.
  destruct (find o s) as [[a r]|] eqn:E; [|reflexivity].
  exfalso. apply Hn. apply find_Some in E. destruct E as [-> _]. now exists a, r.
Qed.

Lemma between_no_closing_after (o c a r : str) :
  first_at o a r -> ~ occurs c r -> between o c (a ++ o ++ r) = None.
Proof.
  intros Ho Hn. unfold between. rewrite (find_first _ _ _ Ho).
  destruct (find c r) as [[b r']|] eqn:E; [|reflexivity].
  exfalso. apply Hn. apply find_Some in E. destruct E as [-> _]. now exists b, r'.
Qed.

Lemma between_no_closing (o c s : str) : ~ occurs c s -> between o c s = None.
Proof.
  intros Hn. unfold between.
  destruct (find o s) as [[a r]|] eqn:E; [|reflexivity].
  destruct (find c r) as [[b r']|] eqn:E'; [|reflexivity].
  exfalso. apply Hn. apply find_Some in E, E'.
  destruct E as [-> _], E' as [-> _].
  exists (a ++ o ++ b), r'. now rewrite <- !app_assoc.
Qed.

(** A marker that extends another one is found only where that one is. *)
Lemma occurs_prefix_marker (p q s : str) : occurs (p ++ q) s -> occurs p s.
Proof.
  intros (a & c & ->). exists a, (q ++ c). now rewrite <- app_assoc.
Qed.

Lemma first_at_find (p a c : str) :
  find p (a ++ p ++ c) = Some (a, c) -> first_at p a c.
Proof.
  intros E. apply find_Some in E. exact (proj2 E).
Qed.

(** ** The summary *)

(** C4, as the code has it: the summary is the trimmed text strictly
    between the first occurrence of the header [**CAREER PROFILE
    ANALYSIS:**] and the first occurrence after it of the closing marker,
    which is the literal [**TOP 3] in the compact variant and the whole
    header [**TOP 3 CAREER RECOMMENDATIONS:**] in the longer one; the
    summary is empty when the first header is missing, when the closing
    marker is missing, and when no closing marker follows the first
    header. *)
Theorem C4_summary_between_markers (text : str) :
  (exists r,
      V1.parseAnalysis text = Ok r
      /\ (forall a b c,
             text = a ++ hdrProfile ++ b ++ js "**TOP 3" ++ c ->
             first_at hdrProfile a (b ++ js "**TOP 3" ++ c) ->
             first_at (js "**TOP 3") b c ->
             summary r = trim b)
      /\ (~ occurs hdrProfile text -> summary r = [])
      /\ (~ occurs (js "**TOP 3") text -> summary r = [])
      /\ (forall a rest,
             text = a ++ hdrProfile ++ rest -> first_at hdrProfile a rest ->
             ~ occurs (js "**TOP 3") rest -> summary r = []))
  /\ (exists r,
         V2.parseAnalysis text = Ok r
         /\ (forall a b c,
                text = a ++ hdrProfile ++ b ++ hdrTop3 ++ c ->
                first_at hdrProfile a (b ++ hdrTop3 ++ c) ->
                first_at hdrTop3 b c ->
                summary r = trim b)
         /\ (~ occurs hdrProfile text -> summary r = [])
         /\ (~ occurs hdrTop3 text -> summary r = [])
         /\ (forall a rest,
                text = a ++ hdrProfile ++ rest -> first_at hdrProfile a rest ->
                ~ occurs hdrTop3 rest -> summary r = [])).
Proof.
  split; eexists; (split; [first [apply V1_parseAnalysis_eq
                                 |apply V2_parseAnalysis_eq]|]);
    cbn [summary]; repeat split.
  - intros a b c -> Ho Hc. now rewrite (between_first _ _ _ _ _ Ho Hc).
  - intros Hn. now rewrite (between_no_opening _ _ _ Hn).
  - intros Hn. now rewrite (between_no_closing _ _ _ Hn).
  - intros a rest -> Ho Hn. now rewrite (between_no_closing_after _ _ _ _ Ho Hn).
  - intros a b c -> Ho Hc. now rewrite (between_first _ _ _ _ _ Ho Hc).
  - intros Hn. now rewrite (between_no_opening _ _ _ Hn).
  - intros Hn. now rewrite (between_no_closing _ _ _ Hn).
  - intros a rest -> Ho Hn. now rewrite (between_no_closing_after _ _ _ _ Ho Hn).
Qed.

(** C4 on the sample answer: both variants give its summary. *)
Lemma C4_summary_witness :
  (exists r, V1.parseAnalysis sampleAnswer = Ok r
             /\ summary r = js "You are analytical.")
  /\ (exists r, V2.parseAnalysis sampleAnswer = Ok r
                /\ summary r = js "You are analytical.").
Proof.
  destruct (C4_summary_between_markers sampleAnswer)
    as [(r1 & E1 & B1 & _) (r2 & E2 & B2 & _)].
  split.
  - exists r1. split; [exact E1|].
    apply (B1 [] (js " You are analytical." ++ [LF])
              (js " CAREER RECOMMENDATIONS:**" ++ [LF]
                 ++ js "1. Data Scientist - Analyzes data. Match: 85%" ++ [LF]
                 ++ hdrNext ++ [LF]
                 ++ js "- Learn SQL" ++ [LF] ++ js "-" ++ [LF]
                 ++ js "- Build a portfolio"));
      [reflexivity| |]; apply first_at_find; vm_compute; reflexivity.
  - exists r2. split; [exact E2|].
    apply (B2 [] (js " You are analytical." ++ [LF])
              ([LF]
                 ++ js "1. Data Scientist - Analyzes data. Match: 85%" ++ [LF]
                 ++ hdrNext ++ [LF]
                 ++ js "- Learn SQL" ++ [LF] ++ js "-" ++ [LF]
                 ++ js "- Build a portfolio"));
      [reflexivity| |]; apply first_at_find; vm_compute; reflexivity.
Defined.

(** C4 fails as stated: the reworded answer has no header [**TOP 3 CAREER
    RECOMMENDATIONS:**], and the compact variant still gives a summary. *)
Lemma C4_summary_counterexample :
  ~ occurs hdrTop3 rewordedAnswer
  /\ V1.parseAnalysis rewordedAnswer
     = Ok (mkAnalysis (js "Curious and precise.") [] []).
Proof.
  split.
  - apply find_None. vm_compute. reflexivity.
  - vm_compute. reflexivity.
Qed.

(** ** Totality and the empty defaults *)

(** C1, as the code has it: [parseAnalysis] returns a record for every
    text and never throws, in both variants; a field keeps its empty
    default when a marker that its pattern looks for is not found: the
    summary when its opening header or its closing marker is missing, or
    when no closing marker follows the opening header, the recommendations
    likewise, the next steps when the third header is missing.  The
    closing markers are the ones the patterns look for: the literals
    [**TOP 3] and [**NEXT] in the compact variant, the second and the
    third header in the longer one. *)
Theorem C1_parseAnalysis_total (text : str) :
  (exists r,
      V1.parseAnalysis text = Ok r
      /\ (~ occurs hdrProfile text \/ ~ occurs (js "**TOP 3") text ->
          summary r = [])
      /\ (~ occurs hdrTop3 text \/ ~ occurs (js "**NEXT") text ->
          recommendations r = [])
      /\ (~ occurs hdrNext text -> nextSteps r = [])
      /\ (forall a rest,
             text = a ++ hdrProfile ++ rest -> first_at hdrProfile a rest ->
             ~ occurs (js "**TOP 3") rest -> summary r = [])
      /\ (forall a rest,
             text = a ++ hdrTop3 ++ rest -> first_at hdrTop3 a rest ->
             ~ occurs (js "**NEXT") rest -> recommendations r = []))
  /\ (exists r,
         V2.parseAnalysis text = Ok r
         /\ (~ occurs hdrProfile text \/ ~ occurs hdrTop3 text ->
             summary r = [])
         /\ (~ occurs hdrTop3 text \/ ~ occurs hdrNext text ->
             recommendations r = [])
         /\ (~ occurs hdrNext text -> nextSteps r = [])
         /\ (forall a rest,
                text = a ++ hdrProfile ++ rest -> first_at hdrProfile a rest ->
                ~ occurs hdrTop3 rest -> summary r = [])
         /\ (forall a rest,
                text = a ++ hdrTop3 ++ rest -> first_at hdrTop3 a rest ->
                ~ occurs hdrNext rest -> recommendations r = [])).
Proof.
  split; eexists; (split; [first [apply V1_parseAnalysis_eq
                                 |apply V2_parseAnalysis_eq]|]);
    cbn [summary recommendations nextSteps];
    (split; [|split; [|split; [|split]]]);
    try (intros [Hn|Hn];
         [now rewrite (between_no_opening _ _ _ Hn)
         |now rewrite (between_no_closing _ _ _ Hn)]);
    try (intros a rest -> Ho Hn;
         now rewrite (between_no_closing_after _ _ _ _ Ho Hn));
    intros Hn; now rewrite (after_missing _ _ Hn).
Qed.

(** C1 on a text without any marker: all three defaults. *)
Lemma C1_parseAnalysis_witness :
  V1.parseAnalysis (js "I cannot help with that.") = Ok (mkAnalysis [] [] [])
  /\ V2.parseAnalysis (js "I cannot help with that.") = Ok (mkAnalysis [] [] []).
Proof.
  assert (N1 : ~ occurs hdrProfile (js "I cannot help with that."))
    by (apply find_None; vm_compute; reflexivity).
  assert (N2 : ~ occurs hdrTop3 (js "I cannot help with that."))
    by (apply find_None; vm_compute; reflexivity).
  assert (N3 : ~ occurs hdrNext (js "I cannot help with that."))
    by (apply find_None; vm_compute; reflexivity).
  destruct (C1_parseAnalysis_total (js "I cannot help with that."))
    as [(r1 & E1 & S1 & R1 & X1 & _) (r2 & E2 & S2 & R2 & X2 & _)].
  specialize (S1 (or_introl N1)). specialize (R1 (or_introl N2)).
  specialize (X1 N3). specialize (S2 (or_introl N1)).
  specialize (R2 (or_introl N2)). specialize (X2 N3).
  destruct r1, r2. cbn in *. subst. split; assumption.
Defined.

(** C1 fails as stated: this answer has the second header and no third
    header, so that the markers of its recommendation section are not
    both found, and the compact variant still returns a recommendation,
    because its pattern closes the section at the literal [**NEXT]. *)
Lemma C1_parseAnalysis_counterexample :
  occurs hdrTop3 nextUpAnswer
  /\ ~ occurs hdrNext nextUpAnswer
  /\ V1.parseAnalysis nextUpAnswer
     = Ok (mkAnalysis []
             [mkRec (js "Data Scientist") (js "Analyzes data.") (Num 85)]
             []).
Proof.
  split; [|split].
  - exists [], ([LF] ++ js "1. Data Scientist - Analyzes data. Match: 85%"
                     ++ [LF] ++ js "**NEXT UP**").
    reflexivity.
  - apply find_None. vm_compute. reflexivity.
  - vm_compute. reflexivity.
Qed.

(** ** The next steps *)

(** C10: when the text contains the header [**NEXT STEPS:**], the next
    steps have at least one element, in both variants: they are the lines
    of the trimmed text after the first occurrence of the header, each
    with a leading bullet of the pattern's class dropped and then trimmed,
    none left out; so a section of white space only gives the one-element
    list of the empty string, and a line that is empty after the stripping
    stays in the list as an empty string. *)
Theorem C10_nextSteps_nonempty (text : str) :
  occurs hdrNext text ->
  (exists r,
      V1.parseAnalysis text = Ok r
      /\ 1 <= length (nextSteps r)
      /\ (forall a rest,
             text = a ++ hdrNext ++ rest -> first_at hdrNext a rest ->
             nextSteps r = List.map V1.cleanStep (split LF (trim rest))
             /\ (blank rest -> nextSteps r = [[]])
             /\ (forall i line,
                    nth_error (split LF (trim rest)) i = Some line ->
                    V1.cleanStep line = [] ->
                    nth_error (nextSteps r) i = Some []))
      /\ (forall x l,
             V1.cleanStep (x :: l)
             = if V1.bullet x then trim l else trim (x :: l))
      /\ V1.cleanStep [] = [])
  /\ (exists r,
         V2.parseAnalysis text = Ok r
         /\ 1 <= length (nextSteps r)
         /\ (forall a rest,
                text = a ++ hdrNext ++ rest -> first_at hdrNext a rest ->
                nextSteps r = List.map V2.cleanStep (split LF (trim rest))
                /\ (blank rest -> nextSteps r = [[]])
                /\ (forall i line,
                       nth_error (split LF (trim rest)) i = Some line ->
                       V2.cleanStep line = [] ->
                       nth_error (nextSteps r) i = Some []))
         /\ (forall x l,
                V2.cleanStep (x :: l)
                = if V2.bullet x then trim l else trim (x :: l))
         /\ V2.cleanStep [] = []).
Proof.
  intros Ho. destruct (after_occurs _ _ Ho) as (a0 & r0 & E0 & F0 & A0).
  split; eexists; (split; [first [apply V1_parseAnalysis_eq
                                 |apply V2_parseAnalysis_eq]|]);
    cbn [nextSteps]; rewrite A0;
    (split; [rewrite length_map; apply split_length|]);
    (split; [|split; [intros x l; first [apply (V1_cleanStep_eq (x :: l))
                                        |apply (V2_cleanStep_eq (x :: l))]
                     |reflexivity]]);
    intros a rest -> Hf; rewrite (after_first _ _ _ Hf) in A0;
    injection A0 as <-; (split; [reflexivity|]); split.
  - intros Hb. now rewrite (trim_blank _ Hb).
  - intros i line Hi Hc. rewrite nth_error_map, Hi. simpl. now rewrite Hc.
  - intros Hb. now rewrite (trim_blank _ Hb).
  - intros i line Hi Hc. rewrite nth_error_map, Hi. simpl. now rewrite Hc.
Qed.

(** C10 on the sample answer, whose three lines after the header, the
    bare bullet among them, give three steps, and on an answer whose
    section is white space only. *)
Lemma C10_nextSteps_witness :
  occurs hdrNext sampleAnswer
  /\ V1.parseAnalysis sampleAnswer
     = Ok (mkAnalysis (js "You are analytical.")
             [mkRec (js "Data Scientist") (js "Analyzes data.") (Num 85)]
             [js "Learn SQL"; []; js "Build a portfolio"])
  /\ (exists r, V1.parseAnalysis blankStepsAnswer = Ok r
                /\ nextSteps r = [[]])
  /\ (exists r, V2.parseAnalysis blankStepsAnswer = Ok r
                /\ nextSteps r = [[]]).
Proof.
  assert (Ho : occurs hdrNext sampleAnswer).
  { exists (hdrProfile ++ js " You are analytical." ++ [LF]
              ++ hdrTop3 ++ [LF]
              ++ js "1. Data Scientist - Analyzes data. Match: 85%" ++ [LF]),
      ([LF] ++ js "- Learn SQL" ++ [LF] ++ js "-" ++ [LF]
            ++ js "- Build a portfolio").
    reflexivity. }
  split; [exact Ho|]. split; [vm_compute; reflexivity|].
  assert (Hb : occurs hdrNext blankStepsAnswer)
    by (exists [], (js "  " ++ [LF]); reflexivity).
  assert (Hf : first_at hdrNext [] (js "  " ++ [LF]))
    by (apply first_at_find; vm_compute; reflexivity).
  assert (Hw : blank (js "  " ++ [LF]))
    by (repeat constructor).
  destruct (C10_nextSteps_nonempty blankStepsAnswer Hb)
    as [(r1 & E1 & _ & S1 & _) (r2 & E2 & _ & S2 & _)].
  split.
  - exists r1. split; [exact E1|].
    exact (proj1 (proj2 (S1 [] (js "  " ++ [LF]) eq_refl Hf)) Hw).
  - exists r2. split; [exact E2|].
    exact (proj1 (proj2 (S2 [] (js "  " ++ [LF]) eq_refl Hf)) Hw).
Defined.

(** ** A text without the third header *)




(** ** Lines of the shape the line pattern describes *)

Lemma star_greedy_run {R : Type} (p : char -> bool) (K : cont R) :
  forall w rest pos c v,
    Forall (fun a => p a = true) w ->
    match rest with y :: _ => p y = false | [] => True end ->
    K (pos + length w) rest c = Some v ->
    star_greedy p K pos (w ++ rest) c = Some v.
Proof.
  induction w as [|x w IH]; intros rest pos c v Fw Hr Hk.
  - rewrite Nat.add_0_r in Hk. destruct rest as [|y rest]; simpl.
    + exact Hk.
    + now rewrite Hr.
  - inversion Fw as [|? ? Px Fw']; subst. simpl. rewrite Px.
    rewrite (IH rest (S pos) c v); auto.
    simpl in Hk. now rewrite Nat.add_succ_r in Hk.
Qed.

Lemma star_lazy_skip {R : Type} (p : char -> bool) (k : cont R) :
  forall b r pos c v,
    Forall (fun a => p a = true) b ->
    (forall b1 b2, b = b1 ++ b2 -> b2 <> [] ->
                   k (pos + length b1) (b2 ++ r) c = None) ->
    k (pos + length b) r c = Some v ->
    star_lazy p k pos (b ++ r) c = Some v.
Proof.
  induction b as [|x b IH]; intros r pos c v Fb Hnone Hk.
  - simpl in *. rewrite Nat.add_0_r in Hk.
    destruct r; simpl; now rewrite Hk.
  - inversion Fb as [|? ? Px Fb']; subst. simpl.
    pose proof (Hnone [] (x :: b) eq_refl) as H0.
    simpl in H0. rewrite Nat.add_0_r in H0. rewrite H0 by discriminate.
    rewrite Px. apply IH; auto.
    + intros b1 b2 -> Hb2. specialize (Hnone (x :: b1) b2 eq_refl Hb2).
      simpl in Hnone. now rewrite Nat.add_succ_r in Hnone.
    + simpl in Hk. now rewrite Nat.add_succ_r in Hk.
Qed.

Lemma strip_before_first (p b1 b2 rest : str) :
  first_at p (b1 ++ b2) rest -> b2 <> [] -> strip p (b2 ++ p ++ rest) = None.
Proof.
  intros Hf Hb. destruct (strip p (b2 ++ p ++ rest)) as [r'|] eqn:E;
    [|reflexivity].
  exfalso. apply strip_Some in E.
  specialize (Hf b1 r'). rewrite <- app_assoc, E in Hf.
  specialize (Hf eq_refl). rewrite length_app in Hf.
  destruct b2; [congruence|simpl in Hf; lia].
Qed.

Lemma firstn_prefix (b r : str) (k : nat) :
  k = length b -> firstn k (b ++ r) = b.
Proof.
  intros ->. replace (length b) with (length b + 0) by lia.
  now rewrite firstn_app_2, app_nil_r.
Qed.

(** A line of the shape [<digits>. <title> - <description> Match:
    <digits>%], with a title that holds no [ - ] and a description that
    holds no [ Match: ], is matched with these parts as its groups. *)
Lemma reLine_shape (ord' t d n' tail : str) (o n0 : char) :
  isDigit o = true -> Forall (fun a => isDigit a = true) ord' ->
  Forall (fun a => dot a = true) t ->
  Forall (fun a => dot a = true) d ->
  isDigit n0 = true -> Forall (fun a => isDigit a = true) n' ->
  first_at (js " - ") t (d ++ js " Match: " ++ (n0 :: n') ++ js "%" ++ tail) ->
  first_at (js " Match: ") d ((n0 :: n') ++ js "%" ++ tail) ->
  search V1.reLine
    ((o :: ord') ++ js ". " ++ t ++ js " - " ++ d ++ js " Match: "
       ++ (n0 :: n') ++ js "%" ++ tail)
  = Some (mkMatch 0 tail [(3, n0 :: n'); (2, d); (1, t)]).
Proof.
  intros Ho Ford Ft Fd Hn0 Fn Ht Hd.
  cbn [app] in Ht, Hd. unfold search. cbn [app searchFrom].
  assert (E : matchAt V1.reLine 0
    (o :: ord' ++ js ". " ++ t ++ js " - " ++ d ++ js " Match: "
       ++ n0 :: n' ++ js "%" ++ tail)
  = Some (mkMatch 0 tail [(3, n0 :: n'); (2, d); (1, t)])).
  { unfold matchAt, V1.reLine, Plus. cbn [exec Nat.eqb]. rewrite Ho.
    apply star_greedy_run; [exact Ford|reflexivity|].
    rewrite strip_app.
    apply star_lazy_skip; [exact Ft| |].
    { intros b1 b2 -> Hb2. now rewrite (strip_before_first _ b1 b2 _ Ht Hb2). }
    rewrite strip_app.
    apply star_lazy_skip; [exact Fd| |].
    { intros b1 b2 -> Hb2. now rewrite (strip_before_first _ b1 b2 _ Hd Hb2). }
    rewrite strip_app. cbn [app]. rewrite Hn0.
    apply star_greedy_run; [exact Fn|reflexivity|].
    rewrite strip_app.
    change (n0 :: n' ++ js "%" ++ tail) with ((n0 :: n') ++ js "%" ++ tail).
    rewrite !firstn_prefix by (cbn [length]; lia). reflexivity. }
  now rewrite E.
Qed.

(** ** [parseInt] on a run of digits *)

Lemma isDigit_range (c : char) : isDigit c = true -> (48 <= c <= 57)%N.
Proof.
  unfold isDigit. intros E. apply andb_prop in E. destruct E as [E1 E2].
  apply N.leb_le in E1, E2. lia.
Qed.

Lemma isDigit_not_white (c : char) : isDigit c = true -> isWhite c = false.
Proof.
  intros E. apply isDigit_range in E. unfold isWhite.
  repeat match goal with
         | |- context [N.eqb c ?k] =>
             replace (N.eqb c k) with false
               by (symmetry; apply N.eqb_neq; lia)
         end.
  replace (N.leb c 13) with false by (symmetry; apply N.leb_gt; lia).
  replace (N.leb 8192 c) with false by (symmetry; apply N.leb_gt; lia).
  now rewrite !andb_false_r.
Qed.

Lemma digitVal_decimal (c : char) :
  isDigit c = true -> digitVal 10 c = Some (Z.of_N c - 48)%Z.
Proof.
  intros E. unfold digitVal. rewrite E. apply isDigit_range in E.
  replace (Z.of_N c - 48 <? 10)%Z with true; [reflexivity|].
  symmetry. apply Z.ltb_lt. lia.
Qed.

Lemma digits_decimal (s : str) :
  Forall (fun a => isDigit a = true) s ->
  forall acc, digits 10 s (Some acc) = Some (decimalFrom acc s).
Proof.
  induction 1 as [|c s Hc _ IH]; intros acc; cbn [digits decimalFrom];
    [reflexivity|].
  rewrite (digitVal_decimal _ Hc). apply IH.
Qed.

Lemma decimalFrom_nonneg (s : str) :
  Forall (fun a => isDigit a = true) s ->
  forall acc, (0 <= acc)%Z -> (0 <= decimalFrom acc s)%Z.
Proof.
  induction 1 as [|c s Hc _ IH]; intros acc Ha; cbn [decimalFrom]; [exact Ha|].
  apply IH. apply isDigit_range in Hc. lia.
Qed.

(** [parseInt] of a run of digits is the Number value of the integer
    they denote. *)
Lemma parseInt_digits (n0 : char) (n' : str) :
  isDigit n0 = true -> Forall (fun a => isDigit a = true) n' ->
  parseInt (n0 :: n') = numberOf (decimalValue (n0 :: n'))
  /\ (0 <= decimalValue (n0 :: n'))%Z.
Proof.
  intros H0 Hn. split.
  - assert (Hret : forall v,
               (if (v =? 0)%Z && (1 =? -1)%Z then NegZero
                else numberOf (1 * v))
               = numberOf v).
    { intros v. change (1 =? -1)%Z with false. rewrite andb_false_r.
      now rewrite Z.mul_1_l. }
    unfold parseInt. cbn [dropWhile]. rewrite (isDigit_not_white _ H0).
    assert (Hd : digits 10 (n0 :: n') None = Some (decimalValue (n0 :: n'))).
    { cbn [digits]. rewrite (digitVal_decimal _ H0).
      rewrite (digits_decimal _ Hn). reflexivity. }
    pose proof (isDigit_range _ H0) as R0.
    assert (Hc : (n0 = 48 \/ n0 = 49 \/ n0 = 50 \/ n0 = 51 \/ n0 = 52
                  \/ n0 = 53 \/ n0 = 54 \/ n0 = 55 \/ n0 = 56 \/ n0 = 57)%N)
      by lia.
    destruct Hc as [->|[->|[->|[->|[->|[->|[->|[->|[->| ->]]]]]]]]];
      try (rewrite Hd; apply Hret).
    destruct n' as [|x r].
    + rewrite Hd; apply Hret.
    + inversion Hn as [|? ? Hx _]; subst. apply isDigit_range in Hx.
      replace (N.eqb x 120) with false by (symmetry; apply N.eqb_neq; lia).
      replace (N.eqb x 88) with false by (symmetry; apply N.eqb_neq; lia).
      cbn [orb]. rewrite Hd; apply Hret.
  - unfold decimalValue. apply decimalFrom_nonneg.
    + constructor; assumption.
    + lia.
Qed.

Lemma In_filterMap {A B : Type} (f : A -> option B) (l : list A) (y : B) :
  In y (filterMap f l) -> exists x, In x l /\ f x = Some y.
Proof.
  induction l as [|x l IH]; simpl; [contradiction|].
  destruct (f x) as [y'|] eqn:E.
  - intros [<-|Hy].
    + exists x. auto.
    + destruct (IH Hy) as (x' & Hx' & Hf). exists x'. auto.
  - intros Hy. destruct (IH Hy) as (x' & Hx' & Hf). exists x'. auto.
Qed.

(** White space around a text that neither starts nor ends with white
    space is what [trim] removes. *)
Lemma dropWhileEnd_app_all (p : char -> bool) (s w : str) :
  Forall (fun a => p a = true) w ->
  dropWhileEnd p (s ++ w) = dropWhileEnd p s.
Proof.
  intros Fw. induction s as [|x s IH]; simpl.
  - now apply dropWhileEnd_nil_iff.
  - now rewrite IH.
Qed.

Lemma trim_padded (w1 w2 core : str) :
  blank w1 -> blank w2 ->
  dropWhile isWhite core = core -> dropWhileEnd isWhite core = core ->
  trim (w1 ++ core ++ w2) = core.
Proof.
  intros B1 B2 Hs He. destruct core as [|x core].
  - apply trim_blank. apply Forall_app. now split.
  - unfold trim. rewrite (dropWhile_all isWhite w1 _ B1).
    assert (Hx : isWhite x = false).
    { destruct (isWhite x) eqn:Wx; [|reflexivity]. exfalso.
      assert (L : length (dropWhile isWhite core) <= length core).
      { clear. induction core as [|y c IH]; simpl; [lia|].
        destruct (isWhite y); simpl; lia. }
      simpl in Hs. rewrite Wx in Hs. rewrite Hs in L. simpl in L. lia. }
    cbn [app dropWhile]. rewrite Hx.
    change (x :: core ++ w2) with ((x :: core) ++ w2).
    now rewrite (dropWhileEnd_app_all isWhite (x :: core) w2 B2).
Qed.

(** A marker that starts with an asterisk does not start inside a text
    without asterisks. *)
Lemma first_at_no_asterisk (p' sec c : str) :
  Forall (fun a => N.eqb a 42 = false) sec ->
  first_at (42%N :: p') sec c.
Proof.
  intros Fs. apply first_at_find.
  induction Fs as [|x sec Hx _ IH].
  - apply (find_first (42%N :: p') [] c). intros a' c' _. simpl. lia.
  - change ((x :: sec) ++ (42%N :: p') ++ c)
      with (x :: (sec ++ (42%N :: p') ++ c)).
    rewrite (find_cons_class (fun a => negb (N.eqb a 42)) 42%N x p');
      [|reflexivity|now rewrite Hx].
    unfold str, char in *. now rewrite IH.
Qed.

Lemma blank_no_asterisk (w : str) :
  blank w -> Forall (fun a => N.eqb a 42 = false) w.
Proof.
  induction 1 as [|x w Hx _ IH]; constructor; [|exact IH].
  destruct (N.eqb_spec x 42) as [->|]; [discriminate Hx|reflexivity].
Qed.

(** ** The recommendations *)

(** C3, as the code has it: the recommendations are one record for each
    line that the line pattern matches, in the order of the lines, and
    nothing for the other lines, where the lines are those of the trimmed
    text between the first occurrence of the second header and the first
    occurrence after it of the literal [**NEXT] (which the third header
    starts with); a line of the shape [<digits>. <title> - <description>
    Match: <digits>%] gives the record of its title, description and
    number; and a text whose section between the second and the third
    header is the single line [1. Data Scientist - Analyzes data. Match:
    85%] gives exactly the record (Data Scientist, Analyzes data., 85). *)
Theorem C3_recommendations_per_line :
  (forall text a sec c,
      text = a ++ hdrTop3 ++ sec ++ js "**NEXT" ++ c ->
      first_at hdrTop3 a (sec ++ js "**NEXT" ++ c) ->
      first_at (js "**NEXT") sec c ->
      exists r,
        V1.parseAnalysis text = Ok r
        /\ recommendations r = filterMap V1.lineRecord (split LF (trim sec)))
  /\ (forall line,
         V1.lineRecord line = None <-> search V1.reLine line = None)
  /\ (forall (o : char) (ord' t d : str) (n0 : char) (n' tail : str),
         isDigit o = true -> Forall (fun a => isDigit a = true) ord' ->
         Forall (fun a => dot a = true) t ->
         Forall (fun a => dot a = true) d ->
         isDigit n0 = true -> Forall (fun a => isDigit a = true) n' ->
         first_at (js " - ") t
                  (d ++ js " Match: " ++ (n0 :: n') ++ js "%" ++ tail) ->
         first_at (js " Match: ") d ((n0 :: n') ++ js "%" ++ tail) ->
         V1.lineRecord
           ((o :: ord') ++ js ". " ++ t ++ js " - " ++ d ++ js " Match: "
              ++ (n0 :: n') ++ js "%" ++ tail)
         = Some (mkRec t d (numberOf (decimalValue (n0 :: n')))))
  /\ (forall a w1 w2 c,
         blank w1 -> blank w2 ->
         first_at hdrTop3 a
           (w1 ++ js "1. Data Scientist - Analyzes data. Match: 85%"
               ++ w2 ++ hdrNext ++ c) ->
         exists r,
           V1.parseAnalysis
             (a ++ hdrTop3 ++ w1
                ++ js "1. Data Scientist - Analyzes data. Match: 85%"
                ++ w2 ++ hdrNext ++ c) = Ok r
           /\ recommendations r
              = [mkRec (js "Data Scientist") (js "Analyzes data.") (Num 85)]).
Proof.
  assert (General : forall text a sec c,
      text = a ++ hdrTop3 ++ sec ++ js "**NEXT" ++ c ->
      first_at hdrTop3 a (sec ++ js "**NEXT" ++ c) ->
      first_at (js "**NEXT") sec c ->
      exists r,
        V1.parseAnalysis text = Ok r
        /\ recommendations r = filterMap V1.lineRecord (split LF (trim sec))).
  { intros text a sec c -> Ho Hc. eexists. split; [apply V1_parseAnalysis_eq|].
    cbn [recommendations]. now rewrite (between_first _ _ _ _ _ Ho Hc). }
  split; [exact General|]. split; [exact V1_lineRecord_None|]. split.
  - intros o ord' t d n0 n' tail Ho Ford Ft Fd Hn0 Fn Ht Hd.
    unfold V1.lineRecord.
    rewrite (reLine_shape ord' t d n' tail o n0 Ho Ford Ft Fd Hn0 Fn Ht Hd).
    cbn [group capture m_caps Nat.eqb].
    now rewrite (proj1 (parseInt_digits n0 n' Hn0 Fn)).
  - intros a w1 w2 c B1 B2 Ho.
    destruct (General
                (a ++ hdrTop3 ++ w1
                   ++ js "1. Data Scientist - Analyzes data. Match: 85%"
                   ++ w2 ++ hdrNext ++ c)
                a
                (w1 ++ js "1. Data Scientist - Analyzes data. Match: 85%"
                    ++ w2)
                (js " STEPS:**" ++ c)) as (r & E & Hr).
    + now rewrite <- !app_assoc.
    + rewrite <- !app_assoc. exact Ho.
    + apply (first_at_no_asterisk (js "*NEXT")).
      apply Forall_app. split; [now apply blank_no_asterisk|].
      apply Forall_app. split; [|now apply blank_no_asterisk].
      repeat constructor.
    + exists r. split; [exact E|]. rewrite Hr.
      rewrite (trim_padded w1 w2 _ B1 B2) by reflexivity.
      vm_compute. reflexivity.
Qed.

(** C3 on the answer with a stray [**NEXT]: the lines up to it give the
    one record. *)
Lemma C3_recommendations_witness :
  exists r,
    V1.parseAnalysis strayAnswer = Ok r
    /\ recommendations r
       = [mkRec (js "Data Scientist") (js "Analyzes data.") (Num 85)].
Proof.
  destruct C3_recommendations_per_line as [General _].
  destruct (General strayAnswer []
              ([LF] ++ js "1. Data Scientist - Analyzes data. Match: 85%"
                    ++ [LF])
              (js " UP**" ++ [LF]
                 ++ js "2. Data Engineer - Builds pipelines. Match: 80%"
                 ++ [LF] ++ hdrNext ++ [LF] ++ js "- Learn SQL"))
    as (r & E & Hr).
  - reflexivity.
  - apply first_at_find. vm_compute. reflexivity.
  - apply first_at_find. vm_compute. reflexivity.
  - exists r. split; [exact E|]. rewrite Hr. vm_compute. reflexivity.
Defined.

(** C3 fails as stated: in the answer with a stray [**NEXT] the section
    between the second and the third header has two lines of the shape,
    and the compact variant returns the record of the first one only. *)
Lemma C3_recommendations_counterexample :
  exists a sec c,
    strayAnswer = a ++ hdrTop3 ++ sec ++ hdrNext ++ c
    /\ first_at hdrTop3 a (sec ++ hdrNext ++ c)
    /\ first_at hdrNext sec c
    /\ filterMap V1.lineRecord (split LF (trim sec))
       = [mkRec (js "Data Scientist") (js "Analyzes data.") (Num 85);
          mkRec (js "Data Engineer") (js "Builds pipelines.") (Num 80)]
    /\ V1.parseAnalysis strayAnswer
       = Ok (mkAnalysis []
               [mkRec (js "Data Scientist") (js "Analyzes data.") (Num 85)]
               [js "Learn SQL"]).
Proof.
  exists [],
    ([LF] ++ js "1. Data Scientist - Analyzes data. Match: 85%" ++ [LF]
          ++ js "**NEXT UP**" ++ [LF]
          ++ js "2. Data Engineer - Builds pipelines. Match: 80%" ++ [LF]),
    ([LF] ++ js "- Learn SQL").
  split; [reflexivity|]. split; [apply first_at_find; vm_compute; reflexivity|].
  split; [apply first_at_find; vm_compute; reflexivity|].
  split; vm_compute; reflexivity.
Qed.

(** ** The Number value of an integer *)

Lemma numberOf_exact (v : Z) :
  (0 <= v < 2 ^ 53)%Z -> numberOf v = Num v.
Proof.
  intros [H0 H1]. unfold numberOf, roundNumber.
  rewrite (Z.abs_eq v H0).
  replace (v <? 2 ^ 53)%Z with true by (symmetry; now apply Z.ltb_lt).
  replace (2 ^ 1024 <=? v)%Z with false.
  - f_equal. destruct (Z.eq_dec v 0) as [->|Hv]; [reflexivity|].
    rewrite Z.sgn_pos by lia. apply Z.mul_1_l.
  - symmetry. apply Z.leb_gt. eapply Z.lt_trans; [exact H1|].
    now apply Z.pow_lt_mono_r.
Qed.

Lemma roundNumber_nonneg (n : Z) : (0 <= n)%Z -> (0 <= roundNumber n)%Z.
Proof.
  intros Hn. unfold roundNumber. destruct (n <? 2 ^ 53)%Z; [exact Hn|].
  apply Z.shiftl_nonneg.
  assert (Hq : (0 <= Z.shiftr n (Z.log2 n - 52))%Z)
    by now apply Z.shiftr_nonneg.
  repeat match goal with
         | |- context [if ?b then _ else _] => destruct b
         end; lia.
Qed.

(** Rounding does not go below the power of two at or under the integer. *)
Lemma roundNumber_lower (n : Z) :
  (2 ^ 53 <= n)%Z -> (2 ^ Z.log2 n <= roundNumber n)%Z.
Proof.
  intros Hn. unfold roundNumber.
  replace (n <? 2 ^ 53)%Z with false by (symmetry; now apply Z.ltb_ge).
  assert (Hpos : (0 < n)%Z).
  { eapply Z.lt_le_trans; [|exact Hn]. now apply Z.pow_pos_nonneg. }
  assert (Hl : (53 <= Z.log2 n)%Z).
  { rewrite <- (Z.log2_pow2 53) by lia. now apply Z.log2_le_mono. }
  set (e := (Z.log2 n - 52)%Z).
  assert (He : (0 <= e)%Z) by (unfold e; lia).
  assert (Hq : (2 ^ 52 <= Z.shiftr n e)%Z).
  { rewrite Z.shiftr_div_pow2 by exact He.
    apply Z.div_le_lower_bound; [now apply Z.pow_pos_nonneg|].
    rewrite <- Z.pow_add_r by lia.
    replace (e + 52)%Z with (Z.log2 n) by (unfold e; lia).
    now apply Z.log2_spec. }
  set (q := Z.shiftr n e) in *.
  match goal with
  | |- (_ <= Z.shiftl ?q' e)%Z => assert (Hq' : (q <= q')%Z)
  end.
  { repeat match goal with
           | |- context [if ?b then _ else _] => destruct b
           end; lia. }
  rewrite Z.shiftl_mul_pow2 by exact He.
  replace (Z.log2 n) with (52 + e)%Z by (unfold e; lia).
  rewrite Z.pow_add_r by lia.
  apply Z.mul_le_mono_nonneg_r; [now apply Z.pow_nonneg|].
  eapply Z.le_trans; [exact Hq|exact Hq'].
Qed.

Lemma numberOf_nonneg (v : Z) :
  (0 <= v)%Z ->
  numberOf v = Infinity \/ exists z, numberOf v = Num z /\ (0 <= z)%Z.
Proof.
  intros Hv. unfold numberOf. rewrite (Z.abs_eq v Hv).
  pose proof (roundNumber_nonneg v Hv) as Hm.
  destruct (2 ^ 1024 <=? roundNumber v)%Z.
  - left. now replace (v <? 0)%Z with false by (symmetry; now apply Z.ltb_ge).
  - right. eexists. split; [reflexivity|].
    apply Z.mul_nonneg_nonneg; [|exact Hm].
    now apply Z.sgn_nonneg.
Qed.

Lemma numberOf_infinite (v : Z) :
  (2 ^ 1024 <= v)%Z -> numberOf v = Infinity.
Proof.
  intros Hv.
  assert (H53 : (2 ^ 53 <= v)%Z).
  { eapply Z.le_trans; [|exact Hv]. now apply Z.pow_le_mono_r. }
  assert (Hpos : (0 < v)%Z).
  { eapply Z.lt_le_trans; [|exact H53]. now apply Z.pow_pos_nonneg. }
  unfold numberOf. rewrite (Z.abs_eq v) by lia.
  replace (2 ^ 1024 <=? roundNumber v)%Z with true.
  - now replace (v <? 0)%Z with false by (symmetry; apply Z.ltb_ge; lia).
  - symmetry. apply Z.leb_le.
    eapply Z.le_trans; [|apply (roundNumber_lower v H53)].
    apply Z.pow_le_mono_r; [lia|].
    rewrite <- (Z.log2_pow2 1024) by lia. now apply Z.log2_le_mono.
Qed.

(** From 2^53 on, the rounded integer is a multiple of the unit in the
    last place with 53 bits in front of it (or the next power of two), at
    most half a unit away from the integer, and with an even multiplier
    when exactly half a unit away. *)
Lemma roundNumber_nearest (n : Z) :
  (2 ^ 53 <= n)%Z ->
  let ulp := (2 ^ (Z.log2 n - 52))%Z in
  exists q,
    roundNumber n = (q * ulp)%Z
    /\ (2 ^ 52 <= q <= 2 ^ 53)%Z
    /\ (2 * Z.abs (roundNumber n - n) <= ulp)%Z
    /\ ((2 * Z.abs (roundNumber n - n))%Z = ulp -> Z.even q = true).
Proof.
  intros Hn ulp. unfold roundNumber.
  replace (n <? 2 ^ 53)%Z with false by (symmetry; now apply Z.ltb_ge).
  assert (Hpos : (0 < n)%Z).
  { eapply Z.lt_le_trans; [|exact Hn]. now apply Z.pow_pos_nonneg. }
  assert (Hl : (53 <= Z.log2 n)%Z).
  { rewrite <- (Z.log2_pow2 53) by lia. now apply Z.log2_le_mono. }
  set (e := (Z.log2 n - 52)%Z) in *.
  assert (He : (1 <= e)%Z) by (unfold e; lia).
  assert (Hu : (0 < ulp)%Z) by (apply Z.pow_pos_nonneg; lia).
  destruct (Z.log2_spec n Hpos) as [Hlo Hhi].
  replace (Z.log2 n) with (52 + e)%Z in Hlo by (unfold e; lia).
  replace (Z.succ (Z.log2 n)) with (53 + e)%Z in Hhi by (unfold e; lia).
  rewrite Z.pow_add_r in Hlo, Hhi by lia. fold ulp in Hlo, Hhi.
  rewrite Z.shiftr_div_pow2 by lia. fold ulp.
  rewrite !Z.shiftl_mul_pow2 by lia. fold ulp.
  assert (Hhalf : (2 * (1 * 2 ^ (e - 1)) = ulp)%Z).
  { unfold ulp. replace e with (1 + (e - 1))%Z at 2 by lia.
    rewrite Z.pow_add_r by lia. change (2 ^ 1)%Z with 2%Z. lia. }
  set (half := (1 * 2 ^ (e - 1))%Z) in *.
  pose proof (Z.div_mod n ulp ltac:(lia)) as Hdm.
  pose proof (Z.mod_pos_bound n ulp Hu) as Hr.
  set (q := (n / ulp)%Z) in *.
  assert (Hq : (2 ^ 52 <= q < 2 ^ 53)%Z).
  { split.
    - apply Z.div_le_lower_bound; [exact Hu|]. lia.
    - apply Z.div_lt_upper_bound; [exact Hu|]. lia. }
  assert (Hrem : (n - q * ulp = n mod ulp)%Z) by lia.
  rewrite Hrem. set (r := (n mod ulp)%Z) in *.
  destruct (r <? half)%Z eqn:E1.
  - apply Z.ltb_lt in E1. exists q. repeat split; try lia.
  - apply Z.ltb_ge in E1. destruct (half <? r)%Z eqn:E2.
    + apply Z.ltb_lt in E2. exists (q + 1)%Z. repeat split; try lia.
    + apply Z.ltb_ge in E2. destruct (Z.even q) eqn:E3.
      * exists q. repeat split; try lia. intros _. exact E3.
      * exists (q + 1)%Z. repeat split; try lia. intros _.
        rewrite Z.even_add, E3. reflexivity.
Qed.

(** [parseInt] beyond 2^53: a tie goes to the neighbour with the even last
    bit, a run of 400 digits is Infinity, and a zero with a minus sign is
    [-0]. *)
Lemma parseInt_large :
  parseInt (js "9007199254740993") = Num 9007199254740992
  /\ parseInt (js "9007199254740995") = Num 9007199254740996
  /\ parseInt (js "1" ++ repeat 48%N 400) = Infinity
  /\ parseInt (js "-0") = NegZero.
Proof.
  split; [vm_compute; reflexivity|]. split; [vm_compute; reflexivity|].
  split; vm_compute; reflexivity.
Qed.

(** ** The line a record comes from *)

Lemma exec_matched {R : Type} (r : regex) :
  forall (k : cont R) pos s c v,
    exec r k pos s c = Some v ->
    exists w s' c',
      s = w ++ s' /\ matched r pos w c c'
      /\ k (pos + length w) s' c' = Some v.
Proof.
  induction r as [l|p|g p|j r IH|r1 IH1 r2 IH2| |]; intros k pos s c v Hv;
    simpl in Hv.
  - destruct (strip l s) as [s'|] eqn:E; [|discriminate].
    apply strip_Some in E. exists l, s', c. simpl. auto.
  - destruct s as [|a s']; [discriminate|].
    destruct (p a) eqn:Pa; [|discriminate].
    exists [a], s', c. simpl. rewrite Nat.add_1_r.
    repeat split; eauto.
  - destruct g.
    + apply star_greedy_sound in Hv; destruct Hv as (w & s' & -> & Fw & Hk).
      exists w, s', c. simpl. auto.
    + apply star_lazy_sound in Hv; destruct Hv as (w & s' & -> & Fw & Hk).
      exists w, s', c. simpl. auto.
  - apply IH in Hv; destruct Hv as (w & s' & c1 & -> & Mw & Hk).
    replace (pos + length w - pos) with (length w + 0) in Hk by lia.
    rewrite firstn_app_2, app_nil_r in Hk.
    exists w, s', ((j, w) :: c1). simpl. repeat split; auto.
    exists c1. auto.
  - apply IH1 in Hv; destruct Hv as (w1 & s1 & c1 & -> & M1 & Hk1).
    apply IH2 in Hk1; destruct Hk1 as (w2 & s2 & c2 & -> & M2 & Hk2).
    exists (w1 ++ w2), s2, c2. rewrite <- app_assoc, length_app, Nat.add_assoc.
    repeat split; auto.
    simpl. exists w1, w2, c1. auto.
  - destruct (Nat.eqb pos 0) eqn:E; [|discriminate].
    apply Nat.eqb_eq in E.
    exists [], s, c. simpl. rewrite Nat.add_0_r. auto.
  - destruct s; [|discriminate].
    exists [], [], c. simpl. rewrite Nat.add_0_r. auto.
Qed.

Lemma searchFrom_matched (r : regex) :
  forall s pos m,
    searchFrom r pos s = Some m ->
    exists a w,
      s = a ++ w ++ m_rest m /\ m_start m = pos + length a
      /\ matched r (pos + length a) w [] (m_caps m).
Proof.
  induction s as [|x s IH]; intros pos m Hm; simpl in Hm.
  - destruct (matchAt r pos []) as [m'|] eqn:E; [|discriminate].
    injection Hm as ->. unfold matchAt in E.
    apply exec_matched in E; destruct E as (w & s' & c' & Hs & Mw & Hk).
    injection Hk as <-. exists [], w. simpl. rewrite Nat.add_0_r. auto.
  - destruct (matchAt r pos (x :: s)) as [m'|] eqn:E.
    + injection Hm as ->. unfold matchAt in E.
      apply exec_matched in E; destruct E as (w & s' & c' & Hs & Mw & Hk).
      injection Hk as <-. exists [], w. simpl. rewrite Nat.add_0_r. auto.
    + apply IH in Hm; destruct Hm as (a & w & -> & Hst & Mw).
      exists (x :: a), w. simpl. rewrite Nat.add_succ_r. auto.
Qed.

(** A line that the line pattern matches has the shape of the pattern from
    its first character on, and the groups are the title, the description
    and the digits as they stand in the line. *)
Lemma reLine_line (line : str) (m : rmatch) :
  search V1.reLine line = Some m ->
  exists ord t d ds,
    line = ord ++ js ". " ++ t ++ js " - " ++ d ++ js " Match: " ++ ds
               ++ js "%" ++ m_rest m
    /\ group 1 m = Ok t /\ group 2 m = Ok d /\ group 3 m = Ok ds
    /\ ord <> [] /\ Forall (fun a => isDigit a = true) ord
    /\ Forall (fun a => dot a = true) t
    /\ Forall (fun a => dot a = true) d
    /\ exists n0 n', ds = n0 :: n' /\ isDigit n0 = true
                     /\ Forall (fun a => isDigit a = true) n'.
Proof.
  intros Hm. apply searchFrom_matched in Hm.
  destruct Hm as (a & w & Hl & _ & Mw).
  unfold V1.reLine, Plus in Mw. cbn [matched] in Mw.
  destruct Mw as (w0 & w1 & c0 & -> & (-> & Ha & ->) & Mw).
  destruct a; [|discriminate Ha]. clear Ha.
  destruct Mw as (wo & w2 & c1 & -> & Mo & Mw).
  destruct Mo as (o1 & o2 & co & -> & ((o & -> & Ho) & ->) & (Fo & ->)).
  destruct Mw as (wl1 & w3 & c2 & -> & (-> & ->) & Mw).
  destruct Mw as (wt & w4 & c3 & -> & (ct & (Ft & ->) & ->) & Mw).
  destruct Mw as (wl2 & w5 & c4 & -> & (-> & ->) & Mw).
  destruct Mw as (wd & w6 & c5 & -> & (cd & (Fd & ->) & ->) & Mw).
  destruct Mw as (wl3 & w7 & c6 & -> & (-> & ->) & Mw).
  destruct Mw as (wn & wl4 & c7 & -> & (cn & Mn & ->) & (-> & Hc)).
  destruct Mn as (n1 & n2 & cn' & -> & ((n0 & -> & Hn0) & ->) & (Fn & ->)).
  exists ([o] ++ o2), wt, wd, ([n0] ++ n2).
  unfold group. rewrite Hc. cbn [capture Nat.eqb].
  split.
  - rewrite Hl. cbn [app]. rewrite <- ?app_assoc. cbn [app].
    rewrite <- ?app_assoc. reflexivity.
  - repeat split; auto.
    + discriminate.
    + constructor; assumption.
    + exists n0, n2. auto.
Qed.

(** C5, as the code has it: every record comes from a line of the
    recommendation section that has the shape of the line pattern; its
    title and description are the two groups of that line and its match
    value is [parseInt] of the digits that stand between [ Match: ] and
    [%] on that line, the Number value of the integer they denote.  That
    value is never [NaN] and never negative: it is the integer itself when
    the integer is below 2^53, from there on a finite value at most half a
    unit in the last place away from it or Infinity, and Infinity from
    2^1024 on.  Nothing keeps it at or below one hundred. *)
Theorem C5_match_nonnegative (text : str) (r : StructuredAnalysis)
        (rec : Recommendation) :
  V1.parseAnalysis text = Ok r ->
  In rec (recommendations r) ->
  exists sec line ord ds tail,
    between hdrTop3 (js "**NEXT") text = Some sec
    /\ In line (split LF (trim sec))
    /\ V1.lineRecord line = Some rec
    /\ line = ord ++ js ". " ++ title rec ++ js " - " ++ description rec
                  ++ js " Match: " ++ ds ++ js "%" ++ tail
    /\ ord <> [] /\ Forall (fun a => isDigit a = true) ord
    /\ ds <> [] /\ Forall (fun a => isDigit a = true) ds
    /\ match_ rec = numberOf (decimalValue ds)
    /\ (0 <= decimalValue ds)%Z
    /\ (match_ rec = Infinity \/ exists z, match_ rec = Num z /\ (0 <= z)%Z)
    /\ ((decimalValue ds < 2 ^ 53)%Z -> match_ rec = Num (decimalValue ds))
    /\ (forall z,
           match_ rec = Num z -> (2 ^ 53 <= decimalValue ds)%Z ->
           (2 * Z.abs (z - decimalValue ds)
            <= 2 ^ (Z.log2 (decimalValue ds) - 52))%Z)
    /\ ((2 ^ 1024 <= decimalValue ds)%Z -> match_ rec = Infinity).
Proof.
  rewrite V1_parseAnalysis_eq. intros E Hin. injection E as <-.
  cbn [recommendations] in Hin.
  destruct (between hdrTop3 (js "**NEXT") text) as [b|]; [|contradiction].
  apply In_filterMap in Hin. destruct Hin as (line & Hline & Hl).
  pose proof Hl as Hrec. unfold V1.lineRecord in Hl.
  destruct (search V1.reLine line) as [m|] eqn:Em; [|discriminate].
  destruct (reLine_line _ _ Em)
    as (ord & t & d & ds & Hshape & G1 & G2 & G3 & Hord & Ford & _ & _
        & n0 & n' & -> & H0 & Hn').
  rewrite G1, G2, G3 in Hl. injection Hl as <-.
  cbn [title description match_] in *.
  destruct (parseInt_digits n0 n' H0 Hn') as [Hp Hz]. rewrite Hp.
  exists b, line, ord, (n0 :: n'), (m_rest m).
  split; [reflexivity|]. split; [exact Hline|].
  split; [now rewrite <- Hp|]. split; [exact Hshape|].
  split; [exact Hord|]. split; [exact Ford|].
  split; [discriminate|]. split; [now constructor|].
  split; [reflexivity|]. split; [exact Hz|].
  split; [now apply numberOf_nonneg|].
  split; [intros Hlt; now apply numberOf_exact|]. split.
  - intros z Ez Hge.
    destruct (roundNumber_nearest _ Hge) as (q & _ & _ & Hnear & _).
    unfold numberOf in Ez. rewrite (Z.abs_eq _ Hz) in Ez.
    destruct (2 ^ 1024 <=? roundNumber (decimalValue (n0 :: n')))%Z;
      [destruct (decimalValue (n0 :: n') <? 0)%Z; discriminate Ez|].
    injection Ez as <-.
    assert (Hpos : (0 < decimalValue (n0 :: n'))%Z).
    { eapply Z.lt_le_trans; [|exact Hge]. now apply Z.pow_pos_nonneg. }
    rewrite Z.sgn_pos by exact Hpos. rewrite Z.mul_1_l. exact Hnear.
  - now apply numberOf_infinite.
Qed.

(** C5 on the answer with a match of 150. *)
Lemma C5_match_witness :
  V1.parseAnalysis overAnswer = Ok (mkAnalysis [] [overRecord] [[]])
  /\ exists sec line ord ds tail,
      between hdrTop3 (js "**NEXT") overAnswer = Some sec
      /\ In line (split LF (trim sec))
      /\ V1.lineRecord line = Some overRecord
      /\ line = ord ++ js ". " ++ title overRecord ++ js " - "
                    ++ description overRecord
                    ++ js " Match: " ++ ds ++ js "%" ++ tail
      /\ ord <> [] /\ Forall (fun a => isDigit a = true) ord
      /\ ds <> [] /\ Forall (fun a => isDigit a = true) ds
      /\ match_ overRecord = numberOf (decimalValue ds)
      /\ (0 <= decimalValue ds)%Z
      /\ (match_ overRecord = Infinity
          \/ exists z, match_ overRecord = Num z /\ (0 <= z)%Z)
      /\ ((decimalValue ds < 2 ^ 53)%Z ->
          match_ overRecord = Num (decimalValue ds))
      /\ (forall z,
             match_ overRecord = Num z -> (2 ^ 53 <= decimalValue ds)%Z ->
             (2 * Z.abs (z - decimalValue ds)
              <= 2 ^ (Z.log2 (decimalValue ds) - 52))%Z)
      /\ ((2 ^ 1024 <= decimalValue ds)%Z -> match_ overRecord = Infinity).
Proof.
  assert (E : V1.parseAnalysis overAnswer
              = Ok (mkAnalysis [] [overRecord] [[]]))
    by (vm_compute; reflexivity).
  split; [exact E|].
  apply (C5_match_nonnegative overAnswer _ overRecord E).
  left. reflexivity.
Defined.

(** C5 fails as stated: the compact variant returns a record whose match
    is 150. *)
Lemma C5_match_counterexample :
  exists r rec,
    V1.parseAnalysis overAnswer = Ok r
    /\ In rec (recommendations r)
    /\ match_ rec = Num 150
    /\ ~ (0 <= 150 <= 100)%Z.
Proof.
  exists (mkAnalysis []
            [mkRec (js "Intern") (js "Fetches coffee.") (Num 150)] [[]]),
    (mkRec (js "Intern") (js "Fetches coffee.") (Num 150)).
  split; [vm_compute; reflexivity|]. split; [left; reflexivity|].
  split; [reflexivity|lia].
Qed.

(** ** The profile extractor *)

Lemma strictEq_true (n : number) (k : Z) :
  strictEq n k = true -> k <> 0%Z -> n = Num k.
Proof.
  destruct n as [z| | | |]; cbn [strictEq]; try discriminate;
    intros E Hk; apply Z.eqb_eq in E; now subst.
Qed.

Lemma hasId_unique (k k' : Z) (e : str * JsValue) :
  hasId k e = true -> hasId k' e = true -> k = k'.
Proof.
  unfold hasId. destruct (parseInt (fst e)); cbn [strictEq];
    try discriminate; intros E E'; apply Z.eqb_eq in E, E'; congruence.
Qed.

Ltac split_ids :=
  repeat match goal with
         | |- context [if strictEq ?n ?k then _ else _] =>
             let E := fresh "E" in destruct (strictEq n k) eqn:E
         end.

Ltac split_codes :=
  repeat match goal with
         | |- context [if is_string ?c ?v then _ else _] =>
             destruct (is_string c v)
         end.

(** An entry for no recognized question leaves the profile as it is. *)
Lemma step_unrecognized (p : CareerProfile) (e : str * JsValue) :
  recognized e = false -> V1.step p e = p.
Proof.
  destruct e as [id v]. unfold recognized, hasId, V1.step. cbn [fst].
  intros E. repeat (apply orb_false_elim in E; destruct E as [E ?]).
  split_ids; congruence.
Qed.

(** Entries for different questions can be applied in either order. *)
Lemma step_comm (p : CareerProfile) (e1 e2 : str * JsValue) :
  (forall k, hasId k e1 = true -> hasId k e2 = true -> False) ->
  V1.step (V1.step p e1) e2 = V1.step (V1.step p e2) e1.
Proof.
  destruct e1 as [i1 v1], e2 as [i2 v2]. unfold hasId, V1.step. cbn [fst].
  intros Hd. split_ids;
    try (exfalso; eapply Hd; eassumption);
    split_codes; reflexivity.
Qed.

Lemma filterMap_Permutation {A B : Type} (f : A -> option B) (l l' : list A) :
  Permutation l l' -> Permutation (filterMap f l) (filterMap f l').
Proof.
  induction 1 as [|x l l' _ IH|x y l|l l' l'' _ IH1 _ IH2]; simpl.
  - constructor.
  - destruct (f x); [now constructor|exact IH].
  - destruct (f x), (f y); try apply Permutation_refl. apply perm_swap.
  - eapply Permutation_trans; eassumption.
Qed.

Lemma questionIds_cons (e : str * JsValue) (l : list (str * JsValue)) :
  questionIds (e :: l)
  = match parseInt (fst e) with
    | Num z => z :: questionIds l
    | NegZero => 0%Z :: questionIds l
    | Infinity | NegInfinity | NaN => questionIds l
    end.
Proof.
  unfold questionIds. simpl. now destruct (parseInt (fst e)).
Qed.

Lemma questionIds_hasId (k : Z) (e : str * JsValue) (l : list (str * JsValue)) :
  hasId k e = true -> questionIds (e :: l) = k :: questionIds l.
Proof.
  unfold hasId. rewrite questionIds_cons.
  destruct (parseInt (fst e)); cbn [strictEq]; try discriminate;
    intros E; apply Z.eqb_eq in E; now subst.
Qed.

Lemma NoDup_questionIds_tail (e : str * JsValue) (l : list (str * JsValue)) :
  NoDup (questionIds (e :: l)) -> NoDup (questionIds l).
Proof.
  rewrite questionIds_cons. destruct (parseInt (fst e)); auto;
    intros Hn; now inversion Hn.
Qed.

Lemma fold_step_perm (l l' : list (str * JsValue)) :
  Permutation l l' ->
  NoDup (questionIds l) ->
  forall p, fold_left V1.step l p = fold_left V1.step l' p.
Proof.
  induction 1 as [|x l l' _ IH|x y l|l l' l'' HP1 IH1 _ IH2]; intros Hn p.
  - reflexivity.
  - simpl. apply IH. exact (NoDup_questionIds_tail _ _ Hn).
  - simpl. f_equal. apply step_comm. intros k Hy Hx.
    rewrite (questionIds_hasId k y _ Hy), (questionIds_hasId k x _ Hx) in Hn.
    inversion Hn as [|? ? Hnin _]. apply Hnin. now left.
  - rewrite IH1 by exact Hn. apply IH2.
    eapply Permutation_NoDup; [|exact Hn].
    now apply filterMap_Permutation.
Qed.

(** C7: the extractor does not depend on the order of the entries when no
    two of them are for the same question id: a permutation of such
    entries gives the same profile, all six fields. *)
Theorem C7_order_independent (entries entries' : list (str * JsValue)) :
  Permutation entries entries' ->
  NoDup (questionIds entries) ->
  V1.extractProfileFromAnswers (JObject entries)
  = V1.extractProfileFromAnswers (JObject entries')
  /\ exists p, V1.extractProfileFromAnswers (JObject entries) = Ok p.
Proof.
  intros HP Hn. unfold V1.extractProfileFromAnswers, V1.applyEntries.
  cbn [Object_entries bind]. rewrite (fold_step_perm _ _ HP Hn).
  split; [reflexivity|eexists; reflexivity].
Qed.

(** C7 on three entries given in two orders. *)
Lemma C7_order_witness :
  NoDup (questionIds [(js "1", JString (js "analytical"));
                      (js "2", JString (js "remote"));
                      (js "7", JString (js "technical"))])
  /\ V1.extractProfileFromAnswers
       (JObject [(js "1", JString (js "analytical"));
                 (js "2", JString (js "remote"));
                 (js "7", JString (js "technical"))])
     = V1.extractProfileFromAnswers
         (JObject [(js "7", JString (js "technical"));
                   (js "1", JString (js "analytical"));
                   (js "2", JString (js "remote"))]).
Proof.
  assert (Hn : NoDup (questionIds [(js "1", JString (js "analytical"));
                                   (js "2", JString (js "remote"));
                                   (js "7", JString (js "technical"))])).
  { vm_compute. repeat constructor; simpl; intuition discriminate. }
  split; [exact Hn|].
  apply (C7_order_independent
           [(js "1", JString (js "analytical"));
            (js "2", JString (js "remote"));
            (js "7", JString (js "technical"))]
           [(js "7", JString (js "technical"));
            (js "1", JString (js "analytical"));
            (js "2", JString (js "remote"))]).
  - apply Permutation_sym.
    apply (Permutation_cons_app
             [(js "1", JString (js "analytical"));
              (js "2", JString (js "remote"))] []).
    rewrite app_nil_r. apply Permutation_refl.
  - exact Hn.
Defined.

(** ** Entries for no recognized question *)

Lemma fold_step_unrecognized (l : list (str * JsValue)) :
  (forall e, In e l -> recognized e = false) ->
  forall p, fold_left V1.step l p = p.
Proof.
  induction l as [|e l IH]; intros Hl p; simpl; [reflexivity|].
  rewrite step_unrecognized by (apply Hl; now left).
  apply IH. intros e' He'. apply Hl. now right.
Qed.

(** C6: the extractor returns a profile for every value but [null], which
    the route turns away before the call, so it never throws on quiz
    answers; the embedding is a function of the answers alone, which it
    does not change; and when no entry is for one of the question ids 1,
    2, 3, 4, 7, 10, as with the empty mapping, the profile is the default
    one: no interests, no skills, and the empty string in the four other
    fields. *)
Theorem C6_default_profile (answers : JsValue) :
  answers <> JNull ->
  exists p,
    V1.extractProfileFromAnswers answers = Ok p
    /\ (forall entries,
           Object_entries answers = Ok entries ->
           (forall e, In e entries -> recognized e = false) ->
           p = mkProfile [] [] (JString []) (JString []) [] (JString []))
    /\ V1.extractProfileFromAnswers (JObject [])
       = Ok (mkProfile [] [] (JString []) (JString []) [] (JString [])).
Proof.
  intros Hnull. unfold V1.extractProfileFromAnswers.
  destruct (Object_entries answers) as [entries|] eqn:E.
  - eexists. split; [reflexivity|]. split; [|reflexivity].
    intros entries' Heq Hl. injection Heq as <-.
    unfold V1.applyEntries. now rewrite (fold_step_unrecognized _ Hl).
  - destruct answers; try discriminate. congruence.
Qed.

(** C6 on answers to questions the extractor does not read. *)
Lemma C6_default_witness :
  JObject [(js "5", JString (js "team")); (js "note", JString (js "hi"))]
  <> JNull
  /\ V1.extractProfileFromAnswers
       (JObject [(js "5", JString (js "team")); (js "note", JString (js "hi"))])
     = Ok (mkProfile [] [] (JString []) (JString []) [] (JString [])).
Proof.
  assert (Hn : JObject [(js "5", JString (js "team"));
                        (js "note", JString (js "hi"))] <> JNull)
    by discriminate.
  split; [exact Hn|].
  destruct (C6_default_profile _ Hn) as (p & E & Hd & _).
  rewrite E. f_equal. apply (Hd _ eq_refl).
  intros e [<-|[<-|[]]]; vm_compute; reflexivity.
Defined.

(** ** The fields one by one *)

Lemma hasId_false_of (k k' : Z) (e : str * JsValue) :
  hasId k e = true -> k <> k' -> hasId k' e = false.
Proof.
  intros E Hk. destruct (hasId k' e) eqn:E'; [|reflexivity].
  exfalso. apply Hk. exact (hasId_unique _ _ _ E E').
Qed.

(** Only an entry for question 1 touches the interests, and what it does
    to them depends on them alone. *)
Lemma interests_frame (p : CareerProfile) (e : str * JsValue) :
  hasId 1 e = false -> interests (V1.step p e) = interests p.
Proof.
  destruct e as [id v]. unfold hasId, V1.step. cbn [fst]. intros E.
  rewrite E. split_ids; split_codes; reflexivity.
Qed.

Lemma interests_congr (p p' : CareerProfile) (e : str * JsValue) :
  interests p = interests p' ->
  interests (V1.step p e) = interests (V1.step p' e).
Proof.
  destruct e as [id v]. unfold V1.step. intros E.
  split_ids; split_codes; cbn [interests]; congruence.
Qed.

Lemma interests_fold (l : list (str * JsValue)) :
  forall p p',
    interests p = interests p' ->
    interests (fold_left V1.step l p)
    = interests (fold_left V1.step (filter (hasId 1) l) p').
Proof.
  induction l as [|e l IH]; intros p p' E; simpl; [exact E|].
  destruct (hasId 1 e) eqn:He; simpl.
  - apply IH. now apply interests_congr.
  - apply IH. now rewrite (interests_frame _ _ He).
Qed.

Lemma skills_frame (p : CareerProfile) (e : str * JsValue) :
  hasId 7 e = false -> skills (V1.step p e) = skills p.
Proof.
  destruct e as [id v]. unfold hasId, V1.step. cbn [fst]. intros E.
  rewrite E. split_ids; split_codes; reflexivity.
Qed.

Lemma skills_congr (p p' : CareerProfile) (e : str * JsValue) :
  skills p = skills p' ->
  skills (V1.step p e) = skills (V1.step p' e).
Proof.
  destruct e as [id v]. unfold V1.step. intros E.
  split_ids; split_codes; cbn [skills]; congruence.
Qed.

Lemma skills_fold (l : list (str * JsValue)) :
  forall p p',
    skills p = skills p' ->
    skills (fold_left V1.step l p)
    = skills (fold_left V1.step (filter (hasId 7) l) p').
Proof.
  induction l as [|e l IH]; intros p p' E; simpl; [exact E|].
  destruct (hasId 7 e) eqn:He; simpl.
  - apply IH. now apply skills_congr.
  - apply IH. now rewrite (skills_frame _ _ He).
Qed.

(** C8: when the answers hold the entry 1: analytical and no other entry
    for question 1, and the entry 7: technical and no other entry for
    question 7, the interests are Problem Solving, Analysis and the skills
    are Technical Skills, Programming, whatever the other entries. *)
Theorem C8_analytical_technical (answers : JsValue)
        (entries : list (str * JsValue)) (k1 k7 : str) :
  Object_entries answers = Ok entries ->
  filter (hasId 1) entries = [(k1, JString (js "analytical"))] ->
  filter (hasId 7) entries = [(k7, JString (js "technical"))] ->
  exists p,
    V1.extractProfileFromAnswers answers = Ok p
    /\ interests p = [js "Problem Solving"; js "Analysis"]
    /\ skills p = [js "Technical Skills"; js "Programming"].
Proof.
  intros E H1 H7. unfold V1.extractProfileFromAnswers. rewrite E.
  eexists. split; [reflexivity|]. unfold V1.applyEntries.
  assert (I1 : hasId 1 (k1, JString (js "analytical")) = true).
  { assert (Hin : In (k1, JString (js "analytical")) (filter (hasId 1) entries))
      by (rewrite H1; now left).
    apply filter_In in Hin. exact (proj2 Hin). }
  assert (I7 : hasId 7 (k7, JString (js "technical")) = true).
  { assert (Hin : In (k7, JString (js "technical")) (filter (hasId 7) entries))
      by (rewrite H7; now left).
    apply filter_In in Hin. exact (proj2 Hin). }
  split.
  - rewrite (interests_fold entries V1.emptyProfile V1.emptyProfile eq_refl).
    rewrite H1. unfold hasId in I1. cbn [fst] in I1.
    cbn [fold_left]. unfold V1.step. rewrite I1. reflexivity.
  - rewrite (skills_fold entries V1.emptyProfile V1.emptyProfile eq_refl).
    rewrite H7. pose proof (hasId_false_of 7 1 _ I7 ltac:(lia)) as F1.
    pose proof (hasId_false_of 7 2 _ I7 ltac:(lia)) as F2.
    pose proof (hasId_false_of 7 3 _ I7 ltac:(lia)) as F3.
    pose proof (hasId_false_of 7 4 _ I7 ltac:(lia)) as F4.
    unfold hasId in I7, F1, F2, F3, F4. cbn [fst] in I7, F1, F2, F3, F4.
    cbn [fold_left]. unfold V1.step. rewrite F1, F2, F3, F4, I7. reflexivity.
Qed.

(** C8 on answers with a third entry besides the two. *)
Lemma C8_analytical_technical_witness :
  exists p,
    V1.extractProfileFromAnswers analyticalTechnical = Ok p
    /\ interests p = [js "Problem Solving"; js "Analysis"]
    /\ skills p = [js "Technical Skills"; js "Programming"].
Proof.
  apply (C8_analytical_technical analyticalTechnical
           [(js "1", JString (js "analytical"));
            (js "2", JString (js "remote"));
            (js "7", JString (js "technical"))]
           (js "1") (js "7"));
    vm_compute; reflexivity.
Defined.

(** ** The career goal *)

Lemma careerGoals_frame (p : CareerProfile) (e : str * JsValue) :
  hasId 3 e = false -> careerGoals (V1.step p e) = careerGoals p.
Proof.
  destruct e as [id v]. unfold hasId, V1.step. cbn [fst]. intros E.
  rewrite E. split_ids; split_codes; reflexivity.
Qed.

Lemma careerGoals_unknown (p : CareerProfile) (e : str * JsValue) :
  knownGoal (snd e) = false -> careerGoals (V1.step p e) = careerGoals p.
Proof.
  destruct e as [id v]. unfold knownGoal, V1.step. cbn [snd]. intros E.
  repeat (apply orb_false_elim in E; destruct E as [E ?]).
  split_ids; split_codes; try reflexivity; discriminate.
Qed.

Lemma careerGoals_impact (p : CareerProfile) (k : str) :
  hasId 3 (k, JString (js "impact")) = true ->
  careerGoals (V1.step p (k, JString (js "impact")))
  = js "Positive social impact".
Proof.
  intros E.
  pose proof (hasId_false_of 3 1 _ E ltac:(lia)) as F1.
  pose proof (hasId_false_of 3 2 _ E ltac:(lia)) as F2.
  unfold hasId in E, F1, F2. cbn [fst] in E, F1, F2.
  unfold V1.step. rewrite F1, F2, E. reflexivity.
Qed.

Lemma careerGoals_fold_unknown (l : list (str * JsValue)) :
  (forall e, In e l -> hasId 3 e = true -> knownGoal (snd e) = false) ->
  forall p, careerGoals (fold_left V1.step l p) = careerGoals p.
Proof.
  induction l as [|e l IH]; intros Hl p; simpl; [reflexivity|].
  rewrite IH by (intros e' He'; apply Hl; now right).
  destruct (hasId 3 e) eqn:He.
  - apply careerGoals_unknown. apply Hl; [now left|exact He].
  - now apply careerGoals_frame.
Qed.

Lemma careerGoals_fold_impact (l : list (str * JsValue)) :
  (forall e, In e l -> hasId 3 e = true -> knownGoal (snd e) = true ->
             snd e = JString (js "impact")) ->
  forall p,
    careerGoals p = js "Positive social impact" ->
    careerGoals (fold_left V1.step l p) = js "Positive social impact".
Proof.
  induction l as [|e l IH]; intros Hl p Hp; simpl; [exact Hp|].
  apply IH; [intros e' He'; apply Hl; now right|].
  destruct (hasId 3 e) eqn:He; [|now rewrite (careerGoals_frame _ _ He)].
  destruct (knownGoal (snd e)) eqn:Hk;
    [|now rewrite (careerGoals_unknown _ _ Hk)].
  specialize (Hl e (or_introl eq_refl) He Hk).
  destruct e as [k v]. cbn [snd] in Hl. subst v.
  now apply careerGoals_impact.
Qed.

(** C9, as the code has it: when the answers hold an entry 3: impact and
    no entry for question 3 after it carries another of the four known
    codes, the career goal is the sentence Positive social impact,
    whatever the other entries; and when every entry for question 3
    carries an unknown code, as when its only entry is 3: unknown-code,
    the career goal is the empty string. *)
Theorem C9_career_goal (entries : list (str * JsValue)) :
  (forall l1 k l2,
      entries = l1 ++ (k, JString (js "impact")) :: l2 ->
      hasId 3 (k, JString (js "impact")) = true ->
      (forall e, In e l2 -> hasId 3 e = true -> knownGoal (snd e) = true ->
                 snd e = JString (js "impact")) ->
      exists p,
        V1.extractProfileFromAnswers (JObject entries) = Ok p
        /\ careerGoals p = js "Positive social impact")
  /\ ((forall e, In e entries -> hasId 3 e = true ->
                 knownGoal (snd e) = false) ->
      exists p,
        V1.extractProfileFromAnswers (JObject entries) = Ok p
        /\ careerGoals p = [])
  /\ (forall k answer,
         filter (hasId 3) entries = [(k, answer)] ->
         knownGoal answer = false ->
         exists p,
           V1.extractProfileFromAnswers (JObject entries) = Ok p
           /\ careerGoals p = []).
Proof.
  assert (Unknown :
            (forall e, In e entries -> hasId 3 e = true ->
                       knownGoal (snd e) = false) ->
            exists p,
              V1.extractProfileFromAnswers (JObject entries) = Ok p
              /\ careerGoals p = []).
  { intros Hl. eexists. split; [reflexivity|].
    unfold V1.applyEntries. now rewrite (careerGoals_fold_unknown _ Hl). }
  split; [|split; [exact Unknown|]].
  - intros l1 k l2 -> Hk Hl. eexists. split; [reflexivity|].
    unfold V1.applyEntries. rewrite fold_left_app. cbn [fold_left].
    apply (careerGoals_fold_impact _ Hl). now apply careerGoals_impact.
  - intros k answer Hf Hk. apply Unknown. intros e He Hid.
    assert (Hin : In e (filter (hasId 3) entries))
      by (apply filter_In; split; assumption).
    rewrite Hf in Hin. destruct Hin as [<-|[]]. exact Hk.
Qed.

(** C9 on the single entry 3: impact among other entries, and on the
    single entry 3: unknown-code. *)
Lemma C9_career_goal_witness :
  (exists p,
      V1.extractProfileFromAnswers
        (JObject [(js "1", JString (js "creative"));
                  (js "3", JString (js "impact"));
                  (js "4", JString (js "health"))]) = Ok p
      /\ careerGoals p = js "Positive social impact")
  /\ (exists p,
         V1.extractProfileFromAnswers
           (JObject [(js "3", JString (js "unknown-code"))]) = Ok p
         /\ careerGoals p = []).
Proof.
  split.
  - apply (proj1 (C9_career_goal
                    [(js "1", JString (js "creative"));
                     (js "3", JString (js "impact"));
                     (js "4", JString (js "health"))])
                 [(js "1", JString (js "creative"))] (js "3")
                 [(js "4", JString (js "health"))]).
    + reflexivity.
    + vm_compute. reflexivity.
    + intros e [<-|[]] Hid. vm_compute in Hid. discriminate.
  - apply (proj2 (proj2 (C9_career_goal
                           [(js "3", JString (js "unknown-code"))]))
                 (js "3") (JString (js "unknown-code")));
      vm_compute; reflexivity.
Defined.

(** C9 fails as stated: these answers hold the entry 3: impact, and the
    career goal is the sentence of another code, where the entry alone
    gives Positive social impact. *)
Lemma C9_career_goal_counterexample :
  Object_entries impactThenFinancial
  = Ok [(js "3", JString (js "impact")); (js "03", JString (js "financial"))]
  /\ hasId 3 (js "3", JString (js "impact")) = true
  /\ (exists p,
         V1.extractProfileFromAnswers impactThenFinancial = Ok p
         /\ careerGoals p = js "Financial success and stability")
  /\ (exists p,
         V1.extractProfileFromAnswers
           (JObject [(js "3", JString (js "impact"))]) = Ok p
         /\ careerGoals p = js "Positive social impact").
Proof.
  split; [reflexivity|]. split; [vm_compute; reflexivity|].
  split; eexists; split; vm_compute; reflexivity.
Qed.

(** * Further properties of the two helpers *)

(** ** Entries the extractor ignores *)

Lemma step_ineffective (p : CareerProfile) (e : str * JsValue) :
  effective e = false -> V1.step p e = p.
Proof.
  destruct e as [id v].
  unfold effective, hasId, knownInterest, knownGoal, knownSkill, V1.step.
  cbn [fst snd]. split_ids; split_codes; cbn; intros Heff;
    try discriminate; reflexivity.
Qed.

Lemma fold_step_effective (l : list (str * JsValue)) :
  forall p,
    fold_left V1.step (filter effective l) p = fold_left V1.step l p.
Proof.
  induction l as [|e l IH]; intros p; simpl; [reflexivity|].
  destruct (effective e) eqn:E; simpl.
  - apply IH.
  - now rewrite IH, (step_ineffective _ _ E).
Qed.

(** X1: entries for other questions than 1, 2, 3, 4, 7, 10, and entries for
    question 1, 3 or 7 whose answer is not a code of the question's table,
    have no effect wherever they stand among the entries: the profile is
    the one of the remaining entries. *)
Theorem X1_ignored_entries (answers : JsValue)
        (entries : list (str * JsValue)) :
  Object_entries answers = Ok entries ->
  V1.extractProfileFromAnswers answers
  = V1.extractProfileFromAnswers (JObject (filter effective entries)).
Proof.
  intros E. unfold V1.extractProfileFromAnswers, V1.applyEntries.
  rewrite E. cbn [Object_entries bind]. now rewrite fold_step_effective.
Qed.

(** X1 on answers with a comment, an unknown code and one quiz answer. *)
Lemma X1_ignored_entries_witness :
  V1.extractProfileFromAnswers
    (JObject [(js "comment", JString (js "hello"));
              (js "1", JString (js "sporty"));
              (js "2", JString (js "remote"));
              (js "9", JString (js "x"))])
  = V1.extractProfileFromAnswers (JObject [(js "2", JString (js "remote"))]).
Proof.
  exact (X1_ignored_entries
           (JObject [(js "comment", JString (js "hello"));
                     (js "1", JString (js "sporty"));
                     (js "2", JString (js "remote"));
                     (js "9", JString (js "x"))])
           [(js "comment", JString (js "hello"));
            (js "1", JString (js "sporty"));
            (js "2", JString (js "remote"));
            (js "9", JString (js "x"))]
           eq_refl).
Defined.

(** ** What the extractor can write *)

Lemma step_tags (p : CareerProfile) (e : str * JsValue) :
  Forall (fun t => In t interestTags) (interests p) ->
  Forall (fun t => In t skillTags) (skills p) ->
  In (careerGoals p) goalSentences ->
  Nat.Even (length (interests p)) -> Nat.Even (length (skills p)) ->
  Forall (fun t => In t interestTags) (interests (V1.step p e))
  /\ Forall (fun t => In t skillTags) (skills (V1.step p e))
  /\ In (careerGoals (V1.step p e)) goalSentences
  /\ Nat.Even (length (interests (V1.step p e)))
  /\ Nat.Even (length (skills (V1.step p e))).
Proof.
  intros Hi Hs Hg Ei Es. destruct e as [id v]. unfold V1.step.
  assert (Two : forall (l : list str) a b,
             Nat.Even (length l) -> Nat.Even (length (l ++ [a; b]))).
  { intros l a b [k Hk]. exists (S k). rewrite length_app. simpl. lia. }
  split_ids; split_codes;
    cbn [interests skills careerGoals];
    repeat split; auto;
    try (apply Forall_app; split; [assumption|]);
    try (repeat constructor; simpl; tauto);
    simpl; tauto.
Qed.

Lemma fold_step_tags (l : list (str * JsValue)) :
  forall p,
    Forall (fun t => In t interestTags) (interests p) ->
    Forall (fun t => In t skillTags) (skills p) ->
    In (careerGoals p) goalSentences ->
    Nat.Even (length (interests p)) -> Nat.Even (length (skills p)) ->
    Forall (fun t => In t interestTags) (interests (fold_left V1.step l p))
    /\ Forall (fun t => In t skillTags) (skills (fold_left V1.step l p))
    /\ In (careerGoals (fold_left V1.step l p)) goalSentences
    /\ Nat.Even (length (interests (fold_left V1.step l p)))
    /\ Nat.Even (length (skills (fold_left V1.step l p))).
Proof.
  induction l as [|e l IH]; intros p Hi Hs Hg Ei Es; simpl; [auto|].
  destruct (step_tags p e Hi Hs Hg Ei Es) as (Hi' & Hs' & Hg' & Ei' & Es').
  now apply IH.
Qed.

(** X2: whatever the answers hold, the interests of the profile are taken
    from the eight interest tags of the source and the skills from its
    eight skill tags, both in pairs, and the career goal is the empty
    string or one of the four sentences: no text of the request reaches
    these three fields. *)
Theorem X2_fixed_vocabulary (answers : JsValue) (p : CareerProfile) :
  V1.extractProfileFromAnswers answers = Ok p ->
  Forall (fun t => In t interestTags) (interests p)
  /\ Forall (fun t => In t skillTags) (skills p)
  /\ In (careerGoals p) goalSentences
  /\ Nat.Even (length (interests p))
  /\ Nat.Even (length (skills p)).
Proof.
  unfold V1.extractProfileFromAnswers, V1.applyEntries.
  destruct (Object_entries answers) as [entries|]; [|discriminate].
  cbn [bind]. intros E. injection E as <-.
  apply fold_step_tags; cbn; auto; try (now exists 0); now left.
Qed.

(** X2 on answers that carry texts of their own. *)
Lemma X2_fixed_vocabulary_witness :
  exists p,
    V1.extractProfileFromAnswers
      (JObject [(js "1", JString (js "leadership"));
                (js "1x", JString (js "<script>"));
                (js "3", JString (js "growth"))]) = Ok p
    /\ Forall (fun t => In t interestTags) (interests p)
    /\ In (careerGoals p) goalSentences.
Proof.
  eexists. split; [reflexivity|].
  destruct (X2_fixed_vocabulary
              (JObject [(js "1", JString (js "leadership"));
                        (js "1x", JString (js "<script>"));
                        (js "3", JString (js "growth"))]) _ eq_refl)
    as (Hi & _ & Hg & _).
  split; assumption.
Defined.

(** ** The fields copied from the answers *)

Lemma workStyle_frame (p : CareerProfile) (e : str * JsValue) :
  hasId 2 e = false -> workStyle (V1.step p e) = workStyle p.
Proof.
  destruct e as [id v]. unfold hasId, V1.step. cbn [fst]. intros E.
  rewrite E. split_ids; split_codes; reflexivity.
Qed.

Lemma industry_frame (p : CareerProfile) (e : str * JsValue) :
  hasId 4 e = false -> industry (V1.step p e) = industry p.
Proof.
  destruct e as [id v]. unfold hasId, V1.step. cbn [fst]. intros E.
  rewrite E. split_ids; split_codes; reflexivity.
Qed.

Lemma experience_frame (p : CareerProfile) (e : str * JsValue) :
  hasId 10 e = false -> experience (V1.step p e) = experience p.
Proof.
  destruct e as [id v]. unfold hasId, V1.step. cbn [fst]. intros E.
  rewrite E. split_ids; split_codes; reflexivity.
Qed.

Lemma step_copies (p : CareerProfile) (k : str) (v : JsValue) :
  (hasId 2 (k, v) = true -> workStyle (V1.step p (k, v)) = v)
  /\ (hasId 4 (k, v) = true -> industry (V1.step p (k, v)) = v)
  /\ (hasId 10 (k, v) = true -> experience (V1.step p (k, v)) = v).
Proof.
  unfold hasId, V1.step. cbn [fst].
  repeat split; intros E; pose proof (strictEq_true _ _ E ltac:(discriminate)) as En;
    rewrite En; reflexivity.
Qed.

(** A field that only the entries for one question write, and that such
    an entry sets to its value: the last of these entries decides. *)
Lemma fold_last_wins (field : CareerProfile -> JsValue) (q : Z) :
  (forall p e, hasId q e = false -> field (V1.step p e) = field p) ->
  (forall p k v, hasId q (k, v) = true -> field (V1.step p (k, v)) = v) ->
  forall entries,
    (forall l1 k v l2,
        entries = l1 ++ (k, v) :: l2 ->
        hasId q (k, v) = true ->
        (forall e, In e l2 -> hasId q e = false) ->
        field (V1.applyEntries entries) = v)
    /\ ((forall e, In e entries -> hasId q e = false) ->
        field (V1.applyEntries entries) = field V1.emptyProfile).
Proof.
  intros Hframe Hset.
  assert (Keep : forall l p,
             (forall e, In e l -> hasId q e = false) ->
             field (fold_left V1.step l p) = field p).
  { induction l as [|e l IH]; intros p Hl; simpl; [reflexivity|].
    rewrite IH by (intros e' He'; apply Hl; now right).
    apply Hframe. apply Hl. now left. }
  intros entries. split.
  - intros l1 k v l2 -> Hk Hl2. unfold V1.applyEntries.
    rewrite fold_left_app. cbn [fold_left]. rewrite (Keep _ _ Hl2).
    now apply Hset.
  - intros Hl. unfold V1.applyEntries. now apply Keep.
Qed.

(** X3: the work style, the industry and the experience are copied
    unchanged from the answers: each is the value, of whatever kind, of the
    last entry for question 2, 4 and 10 respectively, and the empty string
    when there is no such entry. *)
Theorem X3_copied_fields (entries : list (str * JsValue)) :
  (forall l1 k v l2,
      entries = l1 ++ (k, v) :: l2 ->
      (forall e, In e l2 -> hasId 2 e = false) ->
      hasId 2 (k, v) = true ->
      workStyle (V1.applyEntries entries) = v)
  /\ (forall l1 k v l2,
         entries = l1 ++ (k, v) :: l2 ->
         (forall e, In e l2 -> hasId 4 e = false) ->
         hasId 4 (k, v) = true ->
         industry (V1.applyEntries entries) = v)
  /\ (forall l1 k v l2,
         entries = l1 ++ (k, v) :: l2 ->
         (forall e, In e l2 -> hasId 10 e = false) ->
         hasId 10 (k, v) = true ->
         experience (V1.applyEntries entries) = v)
  /\ ((forall e, In e entries -> hasId 2 e = false) ->
      workStyle (V1.applyEntries entries) = JString [])
  /\ ((forall e, In e entries -> hasId 4 e = false) ->
      industry (V1.applyEntries entries) = JString [])
  /\ ((forall e, In e entries -> hasId 10 e = false) ->
      experience (V1.applyEntries entries) = JString []).
Proof.
  destruct (fold_last_wins workStyle 2 workStyle_frame
              (fun p k v => proj1 (step_copies p k v)) entries) as [W1 W0].
  destruct (fold_last_wins industry 4 industry_frame
              (fun p k v => proj1 (proj2 (step_copies p k v))) entries)
    as [I1 I0].
  destruct (fold_last_wins experience 10 experience_frame
              (fun p k v => proj2 (proj2 (step_copies p k v))) entries)
    as [E1 E0].
  repeat split; eauto.
Qed.

(** X3 on answers with two entries for question 2 and a number for
    question 10. *)
Lemma X3_copied_fields_witness :
  workStyle
    (V1.applyEntries [(js "2", JString (js "remote"));
                      (js "10", JNumber (js "5"));
                      (js "02", JString (js "office"))])
  = JString (js "office")
  /\ experience
       (V1.applyEntries [(js "2", JString (js "remote"));
                         (js "10", JNumber (js "5"));
                         (js "02", JString (js "office"))])
     = JNumber (js "5").
Proof.
  destruct (X3_copied_fields [(js "2", JString (js "remote"));
                              (js "10", JNumber (js "5"));
                              (js "02", JString (js "office"))])
    as (W & _ & E & _).
  split.
  - apply (W [(js "2", JString (js "remote")); (js "10", JNumber (js "5"))]
             (js "02") (JString (js "office")) []).
    + reflexivity.
    + intros e [].
    + vm_compute. reflexivity.
  - apply (E [(js "2", JString (js "remote"))]
             (js "10") (JNumber (js "5"))
             [(js "02", JString (js "office"))]).
    + reflexivity.
    + intros e [<-|[]]. vm_compute. reflexivity.
    + vm_compute. reflexivity.
Defined.

(** ** Answers given in two parts *)

Lemma interests_step_app (p : CareerProfile) (e : str * JsValue) :
  interests (V1.step p e)
  = interests p ++ interests (V1.step V1.emptyProfile e).
Proof.
  destruct e as [id v]. unfold V1.step.
  split_ids; split_codes; cbn [interests V1.emptyProfile app];
    now rewrite ?app_nil_r.
Qed.

Lemma skills_step_app (p : CareerProfile) (e : str * JsValue) :
  skills (V1.step p e) = skills p ++ skills (V1.step V1.emptyProfile e).
Proof.
  destruct e as [id v]. unfold V1.step.
  split_ids; split_codes; cbn [skills V1.emptyProfile app];
    now rewrite ?app_nil_r.
Qed.

Lemma careerGoals_step_override (p : CareerProfile) (e : str * JsValue) :
  careerGoals (V1.step p e)
  = match careerGoals (V1.step V1.emptyProfile e) with
    | [] => careerGoals p
    | g => g
    end.
Proof.
  destruct e as [id v]. unfold V1.step.
  split_ids; split_codes; reflexivity.
Qed.

Lemma interests_fold_app (l : list (str * JsValue)) :
  forall p,
    interests (fold_left V1.step l p)
    = interests p ++ interests (fold_left V1.step l V1.emptyProfile).
Proof.
  induction l as [|e l IH]; intros p; simpl.
  - now rewrite app_nil_r.
  - rewrite (IH (V1.step p e)), (IH (V1.step V1.emptyProfile e)).
    now rewrite interests_step_app, app_assoc.
Qed.

Lemma skills_fold_app (l : list (str * JsValue)) :
  forall p,
    skills (fold_left V1.step l p)
    = skills p ++ skills (fold_left V1.step l V1.emptyProfile).
Proof.
  induction l as [|e l IH]; intros p; simpl.
  - now rewrite app_nil_r.
  - rewrite (IH (V1.step p e)), (IH (V1.step V1.emptyProfile e)).
    now rewrite skills_step_app, app_assoc.
Qed.

Lemma careerGoals_fold_override (l : list (str * JsValue)) :
  forall p,
    careerGoals (fold_left V1.step l p)
    = match careerGoals (fold_left V1.step l V1.emptyProfile) with
      | [] => careerGoals p
      | g => g
      end.
Proof.
  induction l as [|e l IH]; intros p; simpl; [reflexivity|].
  rewrite (IH (V1.step p e)), (IH (V1.step V1.emptyProfile e)).
  destruct (careerGoals (fold_left V1.step l V1.emptyProfile)); [|reflexivity].
  apply careerGoals_step_override.
Qed.

(** X4: the profile of entries given in two parts, one after the other:
    the interests are those of the first part followed by those of the
    second, the skills likewise (tags are appended, never replaced), and
    the career goal is the one of the second part unless that part sets
    none, in which case it is the one of the first. *)
Theorem X4_two_parts (l1 l2 : list (str * JsValue)) :
  interests (V1.applyEntries (l1 ++ l2))
  = interests (V1.applyEntries l1) ++ interests (V1.applyEntries l2)
  /\ skills (V1.applyEntries (l1 ++ l2))
     = skills (V1.applyEntries l1) ++ skills (V1.applyEntries l2)
  /\ careerGoals (V1.applyEntries (l1 ++ l2))
     = match careerGoals (V1.applyEntries l2) with
       | [] => careerGoals (V1.applyEntries l1)
       | g => g
       end.
Proof.
  unfold V1.applyEntries. rewrite fold_left_app.
  split; [apply interests_fold_app|].
  split; [apply skills_fold_app|apply careerGoals_fold_override].
Qed.

(** ** The extractor of the longer variant *)

Lemma step_variants (p1 p2 : CareerProfile) (e : str * JsValue) :
  interests p1 = interests p2 -> skills p1 = skills p2 ->
  experience p1 = experience p2 -> workStyle p1 = workStyle p2 ->
  industry p1 = industry p2 ->
  careerGoals p2
  = (if str_eqb (careerGoals p1) (js "Positive social impact")
     then js "Making positive social impact" else careerGoals p1) ->
  interests (V1.step p1 e) = interests (V2.step p2 e)
  /\ skills (V1.step p1 e) = skills (V2.step p2 e)
  /\ experience (V1.step p1 e) = experience (V2.step p2 e)
  /\ workStyle (V1.step p1 e) = workStyle (V2.step p2 e)
  /\ industry (V1.step p1 e) = industry (V2.step p2 e)
  /\ careerGoals (V2.step p2 e)
     = (if str_eqb (careerGoals (V1.step p1 e)) (js "Positive social impact")
        then js "Making positive social impact"
        else careerGoals (V1.step p1 e)).
Proof.
  intros Hi Hs He Hw Hn Hg. destruct e as [id v]. unfold V1.step, V2.step.
  split_ids; split_codes;
    cbn [interests skills experience workStyle industry careerGoals];
    repeat split; congruence.
Qed.

Lemma fold_step_variants (l : list (str * JsValue)) :
  forall p1 p2,
    interests p1 = interests p2 -> skills p1 = skills p2 ->
    experience p1 = experience p2 -> workStyle p1 = workStyle p2 ->
    industry p1 = industry p2 ->
    careerGoals p2
    = (if str_eqb (careerGoals p1) (js "Positive social impact")
       then js "Making positive social impact" else careerGoals p1) ->
    interests (fold_left V1.step l p1) = interests (fold_left V2.step l p2)
    /\ skills (fold_left V1.step l p1) = skills (fold_left V2.step l p2)
    /\ experience (fold_left V1.step l p1)
       = experience (fold_left V2.step l p2)
    /\ workStyle (fold_left V1.step l p1) = workStyle (fold_left V2.step l p2)
    /\ industry (fold_left V1.step l p1) = industry (fold_left V2.step l p2)
    /\ careerGoals (fold_left V2.step l p2)
       = (if str_eqb (careerGoals (fold_left V1.step l p1))
                     (js "Positive social impact")
          then js "Making positive social impact"
          else careerGoals (fold_left V1.step l p1)).
Proof.
  induction l as [|e l IH]; intros p1 p2 Hi Hs He Hw Hn Hg; simpl.
  - repeat split; assumption.
  - destruct (step_variants p1 p2 e Hi Hs He Hw Hn Hg)
      as (Hi' & Hs' & He' & Hw' & Hn' & Hg').
    now apply IH.
Qed.

(** X5: the extractors of the two variants throw on the same answers
    ([null] only) and otherwise give profiles with the same interests,
    skills, experience, work style and industry; the career goals are the
    same too, except that where the compact variant has Positive social
    impact the longer one has Making positive social impact. *)
Theorem X5_extractor_variants (answers : JsValue) :
  (V1.extractProfileFromAnswers answers = Throw
   <-> V2.extractProfileFromAnswers answers = Throw)
  /\ forall p1 p2,
      V1.extractProfileFromAnswers answers = Ok p1 ->
      V2.extractProfileFromAnswers answers = Ok p2 ->
      interests p1 = interests p2 /\ skills p1 = skills p2
      /\ experience p1 = experience p2 /\ workStyle p1 = workStyle p2
      /\ industry p1 = industry p2
      /\ careerGoals p2
         = (if str_eqb (careerGoals p1) (js "Positive social impact")
            then js "Making positive social impact" else careerGoals p1).
Proof.
  unfold V1.extractProfileFromAnswers, V2.extractProfileFromAnswers.
  destruct (Object_entries answers) as [entries|]; cbn [bind].
  - split; [split; discriminate|].
    intros p1 p2 E1 E2. injection E1 as <-. injection E2 as <-.
    apply fold_step_variants; reflexivity.
  - split; [split; reflexivity|]. discriminate.
Qed.

(** ** What the structured analysis looks like *)

Lemma dropWhile_head (p : char -> bool) (s : str) (x : char) (s' : str) :
  dropWhile p s = x :: s' -> p x = false.
Proof.
  induction s as [|y s IH]; simpl; [discriminate|].
  destruct (p y) eqn:Py; [exact IH|].
  intros E. injection E as <- _. exact Py.
Qed.

Lemma dropWhile_suffix (p : char -> bool) (s : str) :
  exists w, s = w ++ dropWhile p s.
Proof.
  induction s as [|y s [w IH]]; simpl; [now exists []|].
  destruct (p y).
  - exists (y :: w). simpl. now f_equal.
  - now exists [].
Qed.

Lemma dropWhileEnd_last (p : char -> bool) (s : str) :
  forall s' x, dropWhileEnd p s = s' ++ [x] -> p x = false.
Proof.
  induction s as [|y s IH]; intros s' x; simpl.
  - destruct s'; discriminate.
  - destruct (dropWhileEnd p s) as [|z r] eqn:E.
    + destruct (p y) eqn:Py.
      * destruct s'; discriminate.
      * destruct s' as [|a [|b s']]; try discriminate.
        intros Ex. injection Ex as <-. exact Py.
    + destruct s' as [|a s'].
      * discriminate.
      * intros Ex. injection Ex as _ Er. exact (IH _ _ Er).
Qed.

Lemma trim_trimmed (s : str) : trimmed (trim s).
Proof.
  unfold trim. split.
  - intros x s' E.
    destruct (dropWhileEnd_prefix isWhite (dropWhile isWhite s)) as [w Hw].
    rewrite E in Hw. simpl in Hw. exact (dropWhile_head _ _ _ _ Hw).
  - intros s' x E. exact (dropWhileEnd_last _ _ _ _ E).
Qed.

Lemma In_trim (c : char) (s : str) : In c (trim s) -> In c s.
Proof.
  unfold trim. intros Hin.
  destruct (dropWhileEnd_prefix isWhite (dropWhile isWhite s)) as [w Hw].
  destruct (dropWhile_suffix isWhite s) as [v Hv].
  rewrite Hv, Hw. apply in_or_app. right. apply in_or_app. now left.
Qed.

Lemma Forall_trim (P : char -> Prop) (s : str) :
  Forall P s -> Forall P (trim s).
Proof.
  intros Hs. apply Forall_forall. intros c Hc.
  apply In_trim in Hc. revert c Hc. now apply Forall_forall.
Qed.

(** The pieces of a split hold no separator. *)
Lemma split_no_sep (sep : char) (s : str) :
  Forall (fun l => ~ In sep l) (split sep s).
Proof.
  induction s as [|c s IH]; simpl; [repeat constructor; auto|].
  destruct (N.eqb_spec c sep) as [->|Hc].
  - constructor; [auto|exact IH].
  - destruct (split sep s) as [|l ls]; [repeat constructor; simpl; intuition|].
    inversion IH as [|? ? Hl Hls]; subst. constructor; [|exact Hls].
    simpl. intros [Hx|Hx]; [congruence|auto].
Qed.

Lemma In_dropWhile (p : char -> bool) (c : char) (s : str) :
  In c (dropWhile p s) -> In c s.
Proof.
  intros Hin. destruct (dropWhile_suffix p s) as [w Hw]. rewrite Hw.
  apply in_or_app. now right.
Qed.

Lemma cleanStep_trimmed_line (b : char -> bool) (l : str) :
  trimmed (trim (replace_empty (Bol >> Cls b >> Star true isWhite) l))
  /\ forall c,
      In c (trim (replace_empty (Bol >> Cls b >> Star true isWhite) l)) ->
      In c l.
Proof.
  split; [apply trim_trimmed|].
  intros c Hc. apply In_trim in Hc. rewrite replace_bullet in Hc.
  destruct l as [|x l]; [exact Hc|].
  destruct (b x); [|exact Hc]. right. now apply In_dropWhile in Hc.
Qed.

Lemma Forall_filterMap {A B : Type} (f : A -> option B) (P : B -> Prop)
      (l : list A) :
  (forall x y, f x = Some y -> P y) -> Forall P (filterMap f l).
Proof.
  intros Hf. induction l as [|x l IH]; simpl; [constructor|].
  destruct (f x) as [y|] eqn:E; [constructor; eauto|exact IH].
Qed.

Lemma V1_lineRecord_dot (line : str) (rc : Recommendation) :
  V1.lineRecord line = Some rc ->
  Forall (fun a => dot a = true) (title rc)
  /\ Forall (fun a => dot a = true) (description rc).
Proof.
  unfold V1.lineRecord.
  destruct (search V1.reLine line) as [m|] eqn:Em; [|discriminate].
  destruct (reLine_groups _ _ Em) as (t & d & n & -> & -> & -> & Ft & Fd & _).
  intros E. injection E as <-. now split.
Qed.

Lemma V2_lineRecord_dot (line : str) (rc : Recommendation) :
  V2.lineRecord line = Some rc ->
  Forall (fun a => dot a = true) (title rc)
  /\ Forall (fun a => dot a = true) (description rc)
  /\ trimmed (title rc) /\ trimmed (description rc).
Proof.
  unfold V2.lineRecord. change V2.reLine with V1.reLine.
  destruct (search V1.reLine line) as [m|] eqn:Em; [|discriminate].
  destruct (reLine_groups _ _ Em) as (t & d & n & -> & -> & -> & Ft & Fd & _).
  intros E. injection E as <-. cbn [title description].
  split; [now apply Forall_trim|]. split; [now apply Forall_trim|].
  split; apply trim_trimmed.
Qed.

(** X6: in what [parseAnalysis] returns, in both variants, the summary
    neither starts nor ends with white space; every next step neither
    starts nor ends with white space and holds no line feed; and every
    title and description is free of line terminators (and, in the longer
    variant, neither starts nor ends with white space). *)
Theorem X6_output_shape (text : str) :
  (exists r,
      V1.parseAnalysis text = Ok r
      /\ trimmed (summary r)
      /\ Forall (fun st => trimmed st /\ ~ In LF st) (nextSteps r)
      /\ Forall (fun rc => Forall (fun a => isLineTerminator a = false)
                                  (title rc)
                           /\ Forall (fun a => isLineTerminator a = false)
                                     (description rc))
                (recommendations r))
  /\ (exists r,
         V2.parseAnalysis text = Ok r
         /\ trimmed (summary r)
         /\ Forall (fun st => trimmed st /\ ~ In LF st) (nextSteps r)
         /\ Forall (fun rc => Forall (fun a => isLineTerminator a = false)
                                     (title rc)
                              /\ Forall (fun a => isLineTerminator a = false)
                                        (description rc)
                              /\ trimmed (title rc)
                              /\ trimmed (description rc))
                   (recommendations r)).
Proof.
  assert (Empty : trimmed []).
  { split; [discriminate|]. intros s' x E. destruct s'; discriminate. }
  assert (Dot : forall l, Forall (fun a => dot a = true) l ->
                          Forall (fun a => isLineTerminator a = false) l).
  { intros l Hl. eapply Forall_impl; [|exact Hl]. intros a Ha.
    unfold dot in Ha. now destruct (isLineTerminator a). }
  assert (Steps : forall b lines,
             Forall (fun l => ~ In LF l) lines ->
             Forall (fun st => trimmed st /\ ~ In LF st)
                    (List.map
                       (fun l => trim (replace_empty
                                         (Bol >> Cls b >> Star true isWhite) l))
                       lines)).
  { intros b lines Hl. induction Hl as [|l lines Hn _ IH]; simpl;
      constructor; [|exact IH].
    destruct (cleanStep_trimmed_line b l) as [Ht Hin]. split; [exact Ht|].
    intros Hc. apply Hn. now apply Hin. }
  split; eexists; (split; [first [apply V1_parseAnalysis_eq
                                 |apply V2_parseAnalysis_eq]|]);
    cbn [summary nextSteps recommendations]; (split; [|split]).
  - destruct (between hdrProfile (js "**TOP 3") text);
      [apply trim_trimmed|exact Empty].
  - destruct (after hdrNext text); [|constructor].
    apply (Steps V1.bullet). apply split_no_sep.
  - destruct (between hdrTop3 (js "**NEXT") text); [|constructor].
    apply Forall_filterMap. intros line rc Hrc.
    destruct (V1_lineRecord_dot _ _ Hrc). split; now apply Dot.
  - destruct (between hdrProfile hdrTop3 text);
      [apply trim_trimmed|exact Empty].
  - destruct (after hdrNext text); [|constructor].
    apply (Steps V2.bullet). apply split_no_sep.
  - destruct (between hdrTop3 hdrNext text); [|constructor].
    apply Forall_filterMap. intros line rc Hrc.
    destruct (V2_lineRecord_dot _ _ Hrc) as (Ht & Hd & Tt & Td).
    split; [now apply Dot|]. split; [now apply Dot|]. now split.
Qed.

(** ** The bullet classes of the two variants *)

Lemma trim_cons_black (x : char) (l : str) :
  isWhite x = false -> trim (x :: l) = x :: dropWhileEnd isWhite l.
Proof.
  intros Hx. unfold trim. cbn [dropWhile]. rewrite Hx. cbn [dropWhileEnd].
  destruct (dropWhileEnd isWhite l); [now rewrite Hx|reflexivity].
Qed.

(** X7: both variants clean the same lines, those of the trimmed text
    after the third header, and differ in the bullet they take off: a
    leading hyphen is dropped by both; a leading bullet U+2022 is dropped
    by the compact variant and kept, as the first character of the step,
    by the longer one, whose class holds U+00E2, U+20AC and U+00A2
    instead, so that a step starting with one of these three loses it in
    the longer variant only; every other line is cleaned alike. *)
Theorem X7_bullet_classes :
  (forall text,
      exists lines r1 r2,
        V1.parseAnalysis text = Ok r1 /\ V2.parseAnalysis text = Ok r2
        /\ nextSteps r1 = List.map V1.cleanStep lines
        /\ nextSteps r2 = List.map V2.cleanStep lines)
  /\ (forall l,
         V1.cleanStep (45%N :: l) = trim l /\ V2.cleanStep (45%N :: l) = trim l)
  /\ (forall l,
         V1.cleanStep (8226%N :: l) = trim l
         /\ V2.cleanStep (8226%N :: l) = 8226%N :: dropWhileEnd isWhite l)
  /\ (forall x l,
         x = 226%N \/ x = 8364%N \/ x = 162%N ->
         V1.cleanStep (x :: l) = x :: dropWhileEnd isWhite l
         /\ V2.cleanStep (x :: l) = trim l)
  /\ (forall x l,
         x <> 8226%N -> x <> 226%N -> x <> 8364%N -> x <> 162%N ->
         V1.cleanStep (x :: l) = V2.cleanStep (x :: l))
  /\ V1.cleanStep [] = [] /\ V2.cleanStep [] = [].
Proof.
  split; [|split; [|split; [|split; [|split; [|split]]]]].
  - intros text.
    exists (match after hdrNext text with
            | Some r => split LF (trim r)
            | None => []
            end).
    eexists. eexists.
    split; [apply V1_parseAnalysis_eq|].
    split; [apply V2_parseAnalysis_eq|].
    cbn [nextSteps]. destruct (after hdrNext text); split; reflexivity.
  - intros l. rewrite V1_cleanStep_eq, V2_cleanStep_eq. split; reflexivity.
  - intros l. rewrite V1_cleanStep_eq, V2_cleanStep_eq.
    split; [reflexivity|].
    change (V2.bullet 8226%N) with false. cbv iota.
    now apply trim_cons_black.
  - intros x l Hx. rewrite V1_cleanStep_eq, V2_cleanStep_eq.
    destruct Hx as [->|[->| ->]]; (split; [|reflexivity]);
      match goal with
      | |- context [V1.bullet ?c] => change (V1.bullet c) with false
      end; cbv iota; now apply trim_cons_black.
  - intros x l N1 N2 N3 N4. rewrite V1_cleanStep_eq, V2_cleanStep_eq.
    unfold V1.bullet, V2.bullet.
    destruct (N.eqb_spec x 45) as [->|]; [reflexivity|].
    destruct (N.eqb_spec x 8226); [contradiction|].
    destruct (N.eqb_spec x 226); [contradiction|].
    destruct (N.eqb_spec x 8364); [contradiction|].
    destruct (N.eqb_spec x 162); [contradiction|]. reflexivity.
  - reflexivity.
  - reflexivity.
Qed.

(** ** Texts that follow the template *)

Lemma find_through (p w x : str) :
  noMatchInside p w x ->
  find p (w ++ x)
  = match find p x with
    | Some (b, r) => Some (w ++ b, r)
    | None => None
    end.
Proof.
  induction w as [|c w IH]; cbn [noMatchInside app].
  - intros _. now destruct (find p x) as [[b r]|].
  - intros [Hs Hw]. cbn [find]. rewrite Hs, (IH Hw).
    now destruct (find p x) as [[b r]|].
Qed.

Lemma noMatchInside_app (p u v x : str) :
  noMatchInside p u (v ++ x) -> noMatchInside p v x ->
  noMatchInside p (u ++ v) x.
Proof.
  intros Hu Hv. induction u as [|c u IH]; cbn [noMatchInside app] in *.
  - exact Hv.
  - destruct Hu as [Hs Hu]. split; [|now apply IH].
    now rewrite <- app_assoc.
Qed.

Lemma noMatchInside_noAsterisk (p' w x : str) :
  noAsterisk w -> noMatchInside (42%N :: p') w x.
Proof.
  induction 1 as [|c w Hc _ IH]; cbn [noMatchInside]; [exact I|].
  split; [|exact IH]. cbn [strip]. now rewrite N.eqb_sym, Hc.
Qed.

(** Two texts without asterisks that are followed by one are equal when
    what they make with it is. *)
Lemma first_asterisk_unique (s w x y : str) :
  noAsterisk s -> noAsterisk w ->
  s ++ 42%N :: x = w ++ 42%N :: y -> s = w.
Proof.
  intros Hs. revert w. induction Hs as [|c s Hc _ IH]; intros w Hw E.
  - destruct w as [|d w]; [reflexivity|].
    inversion Hw as [|? ? Hd _]; subst. simpl in E. injection E as <- _.
    discriminate Hd.
  - destruct w as [|d w]; simpl in E.
    + injection E as -> _. discriminate Hc.
    + injection E as <- E. inversion Hw as [|? ? _ Hw']; subst.
      f_equal. now apply IH.
Qed.

Lemma strip_words (w q s rest : str) :
  noAsterisk s -> noAsterisk w -> s <> w ->
  strip (w ++ 42%N :: q) (s ++ 42%N :: rest) = None.
Proof.
  intros Hs Hw Hne.
  destruct (strip (w ++ 42%N :: q) (s ++ 42%N :: rest)) as [r|] eqn:E;
    [|reflexivity].
  exfalso. apply Hne. apply strip_Some in E. rewrite <- app_assoc in E.
  exact (first_asterisk_unique _ _ _ _ Hs Hw E).
Qed.

(** A header [**w**] does not start inside another header [**v**] that is
    followed by an asterisk-free text [s] and a further header, unless [s]
    is the words [w] themselves. *)
Lemma noMatchInside_header (w v s y : str) (t u : char) (w' v' : str) :
  w = t :: w' -> v = u :: v' -> noAsterisk w -> noAsterisk v ->
  v <> w -> noAsterisk s -> s <> w ->
  noMatchInside (42%N :: 42%N :: w ++ [42%N; 42%N])
                (42%N :: 42%N :: v ++ [42%N; 42%N])
                (s ++ 42%N :: 42%N :: y).
Proof.
  intros Ew Ev Hw Hv Hvw Hs Hsw.
  assert (Ht : N.eqb t 42 = false)
    by (subst w; now inversion Hw).
  assert (Hu : N.eqb u 42 = false)
    by (subst v; now inversion Hv).
  change (42%N :: 42%N :: v ++ [42%N; 42%N])
    with ([42%N] ++ [42%N] ++ v ++ [42%N] ++ [42%N]).
  repeat apply noMatchInside_app.
  - (* at the first asterisk of the header *)
    cbn [noMatchInside app strip]. split; [|exact I].
    rewrite !N.eqb_refl. rewrite <- !app_assoc.
    change ([42%N] ++ [42%N] ++ s ++ 42%N :: 42%N :: y)
      with (42%N :: [42%N] ++ s ++ 42%N :: 42%N :: y).
    change (w ++ [42%N; 42%N]) with (w ++ 42%N :: [42%N]).
    apply strip_words; assumption.
  - (* at its second asterisk *)
    cbn [noMatchInside app strip]. split; [|exact I].
    rewrite N.eqb_refl. subst v. cbn [app]. now rewrite N.eqb_sym, Hu.
  - (* inside its words *)
    now apply noMatchInside_noAsterisk.
  - (* at the asterisk before the last *)
    cbn [noMatchInside app strip]. split; [|exact I].
    rewrite !N.eqb_refl.
    change (w ++ [42%N; 42%N]) with (w ++ 42%N :: [42%N]).
    apply strip_words; assumption.
  - (* at the last asterisk *)
    cbn [noMatchInside app strip]. split; [|exact I].
    rewrite N.eqb_refl. destruct s as [|c s].
    + cbn [app]. rewrite N.eqb_refl. subst w. cbn [app strip].
      now rewrite Ht.
    + inversion Hs as [|? ? Hc _]; subst. cbn [app].
      now rewrite N.eqb_sym, Hc.
Qed.

Lemma noAsterisk_words :
  noAsterisk wordsProfile /\ noAsterisk wordsTop3 /\ noAsterisk wordsNext.
Proof.
  repeat split; repeat constructor.
Qed.

Lemma find_here (p r : str) : find p (p ++ r) = Some ([], r).
Proof.
  apply (find_first p [] r). intros a' c' _. simpl. lia.
Qed.

Section Template.
Variables a s r n : str.
Hypothesis Ha : noAsterisk a.
Hypothesis Hs : noAsterisk s.
Hypothesis Hr : noAsterisk r.
Hypothesis Hs2 : s <> wordsTop3.
Hypothesis Hs3 : s <> wordsNext.
Hypothesis Hr3 : r <> wordsNext.

Lemma template_find_profile :
  find hdrProfile (templateText a s r n)
  = Some (a, s ++ hdrTop3 ++ r ++ hdrNext ++ n).
Proof.
  unfold templateText. apply find_first.
  exact (first_at_no_asterisk (js "*CAREER PROFILE ANALYSIS:**") a _ Ha).
Qed.

Lemma template_find_top3 :
  find hdrTop3 (templateText a s r n)
  = Some (a ++ hdrProfile ++ s, r ++ hdrNext ++ n).
Proof.
  destruct noAsterisk_words as (Wp & Wt & Wn).
  unfold templateText.
  replace (a ++ hdrProfile ++ s ++ hdrTop3 ++ r ++ hdrNext ++ n)
    with ((a ++ hdrProfile ++ s) ++ hdrTop3 ++ r ++ hdrNext ++ n)
    by now rewrite <- !app_assoc.
  rewrite find_through, find_here; [now rewrite app_nil_r|].
  apply noMatchInside_app;
    [exact (noMatchInside_noAsterisk (js "*TOP 3 CAREER RECOMMENDATIONS:**")
              a _ Ha)|].
  apply noMatchInside_app;
    [|exact (noMatchInside_noAsterisk
               (js "*TOP 3 CAREER RECOMMENDATIONS:**") s _ Hs)].
  refine (noMatchInside_header wordsTop3 wordsProfile s
            (js "TOP 3 CAREER RECOMMENDATIONS:**" ++ r ++ hdrNext ++ n)
            _ _ _ _ eq_refl eq_refl Wt Wp _ Hs Hs2).
  intro E. vm_compute in E. discriminate E.
Qed.

Lemma template_find_next :
  find hdrNext (templateText a s r n)
  = Some (a ++ hdrProfile ++ s ++ hdrTop3 ++ r, n).
Proof.
  destruct noAsterisk_words as (Wp & Wt & Wn).
  unfold templateText.
  replace (a ++ hdrProfile ++ s ++ hdrTop3 ++ r ++ hdrNext ++ n)
    with ((a ++ hdrProfile ++ s ++ hdrTop3 ++ r) ++ hdrNext ++ n)
    by now rewrite <- !app_assoc.
  rewrite find_through, find_here; [now rewrite app_nil_r|].
  apply noMatchInside_app;
    [exact (noMatchInside_noAsterisk (js "*NEXT STEPS:**") a _ Ha)|].
  apply noMatchInside_app.
  { rewrite <- !app_assoc.
    refine (noMatchInside_header wordsNext wordsProfile s
              (js "TOP 3 CAREER RECOMMENDATIONS:**" ++ r ++ hdrNext ++ n)
              _ _ _ _ eq_refl eq_refl Wn Wp _ Hs Hs3).
    intro E. vm_compute in E. discriminate E. }
  apply noMatchInside_app;
    [exact (noMatchInside_noAsterisk (js "*NEXT STEPS:**") s _ Hs)|].
  apply noMatchInside_app;
    [|exact (noMatchInside_noAsterisk (js "*NEXT STEPS:**") r _ Hr)].
  refine (noMatchInside_header wordsNext wordsTop3 r
            (js "NEXT STEPS:**" ++ n)
            _ _ _ _ eq_refl eq_refl Wn Wt _ Hr Hr3).
  intro E. vm_compute in E. discriminate E.
Qed.

Lemma template_sections :
  between hdrProfile (js "**TOP 3") (templateText a s r n) = Some s
  /\ between hdrProfile hdrTop3 (templateText a s r n) = Some s
  /\ between hdrTop3 (js "**NEXT") (templateText a s r n) = Some r
  /\ between hdrTop3 hdrNext (templateText a s r n) = Some r
  /\ after hdrNext (templateText a s r n) = Some n.
Proof.
  unfold between, after.
  rewrite template_find_profile, template_find_top3, template_find_next.
  assert (F1 : find (js "**TOP 3") (s ++ hdrTop3 ++ r ++ hdrNext ++ n)
               = Some (s, js " CAREER RECOMMENDATIONS:**"
                            ++ r ++ hdrNext ++ n)).
  { apply (find_first (js "**TOP 3") s
             (js " CAREER RECOMMENDATIONS:**" ++ r ++ hdrNext ++ n)).
    exact (first_at_no_asterisk (js "*TOP 3") s _ Hs). }
  assert (F2 : find hdrTop3 (s ++ hdrTop3 ++ r ++ hdrNext ++ n)
               = Some (s, r ++ hdrNext ++ n)).
  { apply find_first.
    exact (first_at_no_asterisk (js "*TOP 3 CAREER RECOMMENDATIONS:**")
             s _ Hs). }
  assert (F3 : find (js "**NEXT") (r ++ hdrNext ++ n)
               = Some (r, js " STEPS:**" ++ n)).
  { apply (find_first (js "**NEXT") r (js " STEPS:**" ++ n)).
    exact (first_at_no_asterisk (js "*NEXT") r _ Hr). }
  assert (F4 : find hdrNext (r ++ hdrNext ++ n) = Some (r, n)).
  { apply find_first.
    exact (first_at_no_asterisk (js "*NEXT STEPS:**") r _ Hr). }
  rewrite F1, F2, F3, F4. repeat split; reflexivity.
Qed.
End Template.

(** X8: a text that follows the template is taken apart field by field,
    in both variants.  When the three headers stand in their order, the
    text before the first header, the summary part and the recommendations
    part hold no asterisk, the summary part is not the bare words of the
    second or third header and the recommendations part is not the bare
    words of the third, then the summary is the trimmed summary part, the
    recommendations are the records of the lines of the trimmed
    recommendations part, and the next steps are the cleaned lines of the
    trimmed steps part, whatever the steps part holds. *)
Theorem X8_template_text (before summaryPart recsPart stepsPart : str) :
  noAsterisk before -> noAsterisk summaryPart -> noAsterisk recsPart ->
  summaryPart <> wordsTop3 -> summaryPart <> wordsNext ->
  recsPart <> wordsNext ->
  V1.parseAnalysis (templateText before summaryPart recsPart stepsPart)
  = Ok (mkAnalysis
          (trim summaryPart)
          (filterMap V1.lineRecord (split LF (trim recsPart)))
          (List.map V1.cleanStep (split LF (trim stepsPart))))
  /\ V2.parseAnalysis (templateText before summaryPart recsPart stepsPart)
     = Ok (mkAnalysis
             (trim summaryPart)
             (filterMap V2.lineRecord (split LF (trim recsPart)))
             (List.map V2.cleanStep (split LF (trim stepsPart)))).
Proof.
  intros Ha Hs Hr Hs2 Hs3 Hr3.
  destruct (template_sections before summaryPart recsPart stepsPart
              Ha Hs Hr Hs2 Hs3 Hr3) as (B1 & B2 & B3 & B4 & A).
  rewrite V1_parseAnalysis_eq, V2_parseAnalysis_eq.
  now rewrite B1, B2, B3, B4, A.
Qed.

(** X8 on an answer with three recommendation lines and bold text in its
    steps. *)
Lemma X8_template_text_witness :
  V1.parseAnalysis
    (templateText
       (js "Here is your analysis." ++ [LF])
       ([LF] ++ js "You like puzzles." ++ [LF])
       ([LF] ++ js "1. Data Scientist - Analyzes data. Match: 85%" ++ [LF]
             ++ js "Intro line" ++ [LF]
             ++ js "2. Analyst - Reads reports. Match: 80%" ++ [LF])
       ([LF] ++ js "- Learn **SQL**" ++ [LF] ++ js "- Apply"))
  = Ok (mkAnalysis
          (js "You like puzzles.")
          [mkRec (js "Data Scientist") (js "Analyzes data.") (Num 85);
           mkRec (js "Analyst") (js "Reads reports.") (Num 80)]
          [js "Learn **SQL**"; js "Apply"]).
Proof.
  refine (eq_trans
            (proj1 (X8_template_text
                      (js "Here is your analysis." ++ [LF])
                      ([LF] ++ js "You like puzzles." ++ [LF])
                      ([LF] ++ js "1. Data Scientist - Analyzes data. Match: 85%"
                            ++ [LF] ++ js "Intro line" ++ [LF]
                            ++ js "2. Analyst - Reads reports. Match: 80%"
                            ++ [LF])
                      ([LF] ++ js "- Learn **SQL**" ++ [LF] ++ js "- Apply")
                      _ _ _ _ _ _)) _);
    try (intro E; vm_compute in E; discriminate E);
    try (vm_compute; reflexivity);
    repeat constructor.
Defined.

(** ** The summaries of the two variants *)

Lemma dropWhileEnd_app_prefix (p : char -> bool) (x w : str) :
  exists u, dropWhileEnd p (x ++ w) = dropWhileEnd p x ++ u.
Proof.
  induction x as [|c x [u IH]]; cbn [app dropWhileEnd].
  - now exists (dropWhileEnd p w).
  - rewrite IH. destruct (dropWhileEnd p x) as [|y t]; cbn [app].
    + destruct u as [|z u]; destruct (p c); cbn [app].
      * now exists [].
      * now exists [].
      * now exists (c :: z :: u).
      * now exists (z :: u).
    + now exists u.
Qed.

Lemma trim_app_prefix (x w : str) : exists u, trim (x ++ w) = trim x ++ u.
Proof.
  unfold trim. destruct (dropWhile isWhite x) as [|y d] eqn:E.
  - cbn [dropWhileEnd app]. eexists. reflexivity.
  - assert (Hd : dropWhile isWhite (x ++ w) = (y :: d) ++ w).
    { clear -E. revert E. induction x as [|c x IH]; simpl; [discriminate|].
      destruct (isWhite c); [exact IH|]. intros E. now injection E as <- <-. }
    rewrite Hd. apply dropWhileEnd_app_prefix.
Qed.

(** The section up to a marker starts with the section up to a marker
    that the first one begins with. *)
Lemma between_prefix_marker (o p q s b2 : str) :
  between o (p ++ q) s = Some b2 ->
  exists b1 w, between o p s = Some b1 /\ b2 = b1 ++ w.
Proof.
  unfold between. destruct (find o s) as [[a rest]|]; [|discriminate].
  destruct (find (p ++ q) rest) as [[b c]|] eqn:E2; [|discriminate].
  intros E. injection E as <-. apply find_Some in E2. destruct E2 as [Hr _].
  assert (Ho : occurs p rest).
  { exists b, (q ++ c). rewrite Hr. now rewrite <- app_assoc. }
  destruct (find_occurs _ _ Ho) as (b1 & c1 & E1). rewrite E1.
  apply find_Some in E1. destruct E1 as [Hr1 Hf1].
  assert (Hle : length b1 <= length b).
  { apply (Hf1 b (q ++ c)). rewrite <- Hr1, Hr. now rewrite <- app_assoc. }
  rewrite Hr1 in Hr.
  destruct (app_eq_split _ b1 b _ _ Hr Hle) as (w & -> & _).
  now exists b1, w.
Qed.

(** X9: on every text, the summary of the longer variant is empty or
    starts with the summary of the compact variant: where the longer
    variant finds a summary, the compact one finds at least its
    beginning, since its closing marker is the beginning of the second
    header. *)
Theorem X9_summary_variants (text : str) :
  exists r1 r2,
    V1.parseAnalysis text = Ok r1 /\ V2.parseAnalysis text = Ok r2
    /\ (summary r2 = [] \/ exists u, summary r2 = summary r1 ++ u).
Proof.
  eexists. eexists.
  split; [apply V1_parseAnalysis_eq|]. split; [apply V2_parseAnalysis_eq|].
  cbn [summary].
  destruct (between hdrProfile hdrTop3 text) as [b2|] eqn:E2; [|now left].
  right.
  destruct (between_prefix_marker hdrProfile (js "**TOP 3")
              (js " CAREER RECOMMENDATIONS:**") text b2 E2)
    as (b1 & w & -> & ->).
  apply trim_app_prefix.
Qed.

(** ** The quiz analysis route *)

Lemma forEach_printable (entries : list (str * JsValue)) :
  forEach (fun (_ : unit) (e : str * JsValue) =>
             if printable (snd e) then Ok tt else Throw) entries tt
  = if forallb (fun e => printable (snd e)) entries then Ok tt else Throw.
Proof.
  induction entries as [|e entries IH]; cbn [forEach forallb]; [reflexivity|].
  destruct (printable (snd e)); cbn [bind andb]; [exact IH|reflexivity].
Qed.

Lemma accepted_entries (answers : JsValue) :
  acceptedAnswers answers = true ->
  exists entries, Object_entries answers = Ok entries.
Proof.
  destruct answers; cbn; try discriminate; intros _; eexists; reflexivity.
Qed.

Lemma allPrintable_forallb (answers : JsValue) (entries : list (str * JsValue)) :
  Object_entries answers = Ok entries ->
  allPrintable answers <-> forallb (fun e => printable (snd e)) entries = true.
Proof.
  intros He. unfold allPrintable. rewrite forallb_forall, He. split.
  - intros H e Hin. specialize (H entries eq_refl).
    rewrite Forall_forall in H. now apply H.
  - intros H entries' E. injection E as <-. now apply Forall_forall.
Qed.

Lemma answersGiven_inv (b answers : JsValue) :
  answersGiven (Some b) answers ->
  ownProperty (js "answers") b = Some answers /\ acceptedAnswers answers = true.
Proof. intros (b' & E & Hp & Ha). injection E as <-. now split. Qed.

Section Route.

Variable extract : JsValue -> result CareerProfile.
Variable parse : str -> result StructuredAnalysis.

Hypothesis extract_total :
  forall answers, acceptedAnswers answers = true ->
                  exists p, extract answers = Ok p.
Hypothesis parse_total : forall text, exists r, parse text = Ok r.

(** The handler, case by case. *)
Lemma quizAnalysis_eq (reqBody : option JsValue) (ai : aiOutcome) (now : str) :
  quizAnalysis extract parse reqBody ai now =
  match answersOf reqBody with
  | Throw => analysisFailed
  | Ok None => invalidRequest
  | Ok (Some answers) =>
      if acceptedAnswers answers then
        match Object_entries answers, ai, extract answers with
        | Ok entries, AiText t, Ok p =>
            if forallb (fun e => printable (snd e)) entries then
              match parse t with
              | Ok r => mkResponse 200
                          (AnalysisBody (summary r) (recommendations r)
                             (nextSteps r) p now)
              | Throw => analysisFailed
              end
            else analysisFailed
        | _, _, _ => analysisFailed
        end
      else invalidRequest
  end.
Proof.
  unfold quizAnalysis.
  destruct (answersOf reqBody) as [[answers|]|]; cbn [bind]; try reflexivity.
  destruct (acceptedAnswers answers); cbn [negb]; [|reflexivity].
  destruct (Object_entries answers) as [entries|]; cbn [bind]; [|reflexivity].
  rewrite forEach_printable.
  destruct (forallb _ entries); cbn [bind].
  - destruct ai; cbn [bind]; try reflexivity;
      destruct (extract answers); cbn [bind]; try reflexivity.
    destruct (parse text); reflexivity.
  - destruct ai; try reflexivity. destruct (extract answers); reflexivity.
Qed.

Lemma quizAnalysis_cases (reqBody : option JsValue) (ai : aiOutcome) (now : str) :
  let resp := quizAnalysis extract parse reqBody ai now in
  (resp = invalidRequest <->
     exists b, reqBody = Some b /\ b <> JNull
               /\ forall answers, ~ answersGiven reqBody answers)
  /\ (forall answers t,
        answersGiven reqBody answers -> allPrintable answers -> ai = AiText t ->
        exists p r,
          extract answers = Ok p /\ parse t = Ok r
          /\ resp = mkResponse 200
                      (AnalysisBody (summary r) (recommendations r)
                         (nextSteps r) p now))
  /\ (resp = analysisFailed <->
        reqBody = None \/ reqBody = Some JNull
        \/ exists answers,
             answersGiven reqBody answers
             /\ (~ allPrintable answers \/ forall t, ai <> AiText t))
  /\ (status resp = 200 \/ resp = invalidRequest \/ resp = analysisFailed).
Proof.
  intros resp. subst resp. rewrite quizAnalysis_eq.
  destruct reqBody as [b|].
  2:{ cbn [answersOf]. repeat split.
      - discriminate.
      - intros (b & E & _). discriminate E.
      - intros ? ? (b & E & _). discriminate E.
      - now left.
      - now right; right. }
  destruct (answersOf (Some b)) as [[answers|]|] eqn:Eo.
  - (* the body has answers *)
    assert (Hb : b <> JNull) by (intros ->; discriminate Eo).
    assert (Hp : ownProperty (js "answers") b = Some answers).
    { destruct b; cbn [answersOf] in Eo; try discriminate Eo; congruence. }
    destruct (acceptedAnswers answers) eqn:Ea.
    + destruct (accepted_entries _ Ea) as (entries & He). rewrite He.
      destruct (extract_total _ Ea) as (p & Hx). rewrite Hx.
      assert (Hg : answersGiven (Some b) answers) by (exists b; auto).
      pose proof (allPrintable_forallb _ _ He) as Hall.
      destruct ai as [t| |].
      * destruct (parse_total t) as (r & Hr). rewrite Hr.
        destruct (forallb _ entries) eqn:Ef.
        -- repeat split.
           ++ discriminate.
           ++ intros (_ & _ & _ & Hno). now destruct (Hno _ Hg).
           ++ intros a t' Hg' _ E. injection E as <-.
              apply answersGiven_inv in Hg'. destruct Hg' as [Hp' _].
              rewrite Hp in Hp'. injection Hp' as <-.
              exists p, r. now rewrite Hx, Hr.
           ++ discriminate.
           ++ intros [E|[E|(a & Hg' & Hc)]]; try discriminate E.
              ** now injection E as ->.
              ** exfalso. apply answersGiven_inv in Hg'. destruct Hg' as [Hp' _].
                 rewrite Hp in Hp'. injection Hp' as <-.
                 destruct Hc as [Hc|Hc]; [now apply Hc, Hall|now apply (Hc t)].
           ++ now left.
        -- repeat split.
           ++ discriminate.
           ++ intros (_ & _ & _ & Hno). now destruct (Hno _ Hg).
           ++ intros a t' Hg' Hpr _.
              apply answersGiven_inv in Hg'. destruct Hg' as [Hp' _].
              rewrite Hp in Hp'. injection Hp' as <-.
              apply Hall in Hpr. congruence.
           ++ intros _. right; right. exists answers. split; [exact Hg|].
              left. intros Hpr. apply Hall in Hpr. congruence.
           ++ now right; right.
      * repeat split.
        -- discriminate.
        -- intros (_ & _ & _ & Hno). now destruct (Hno _ Hg).
        -- intros ? ? _ _ E. discriminate E.
        -- intros _. right; right. exists answers. split; [exact Hg|].
           right. intros t E. discriminate E.
        -- now right; right.
      * repeat split.
        -- discriminate.
        -- intros (_ & _ & _ & Hno). now destruct (Hno _ Hg).
        -- intros ? ? _ _ E. discriminate E.
        -- intros _. right; right. exists answers. split; [exact Hg|].
           right. intros t E. discriminate E.
        -- now right; right.
    + repeat split.
      * intros _. exists b. repeat split; [exact Hb|].
        intros a Hg. apply answersGiven_inv in Hg. destruct Hg as [Hp' Ha'].
        rewrite Hp in Hp'. injection Hp' as <-. congruence.
      * intros a t Hg. apply answersGiven_inv in Hg. destruct Hg as [Hp' Ha'].
        rewrite Hp in Hp'. injection Hp' as <-. congruence.
      * discriminate.
      * intros [E|[E|(a & Hg & _)]]; try discriminate E.
        -- now injection E as ->.
        -- apply answersGiven_inv in Hg. destruct Hg as [Hp' Ha'].
           rewrite Hp in Hp'. injection Hp' as <-. congruence.
      * now right; left.
  - (* the body has no answers *)
    assert (Hb : b <> JNull) by (intros ->; discriminate Eo).
    assert (Hp : ownProperty (js "answers") b = None).
    { destruct b; cbn [answersOf] in Eo; try discriminate Eo; congruence. }
    repeat split.
    + intros _. exists b. repeat split; [exact Hb|].
      intros a Hg. apply answersGiven_inv in Hg. destruct Hg as [Hp' _].
      congruence.
    + intros a t Hg. apply answersGiven_inv in Hg. destruct Hg as [Hp' _].
      congruence.
    + discriminate.
    + intros [E|[E|(a & Hg & _)]]; try discriminate E.
      * now injection E as ->.
      * apply answersGiven_inv in Hg. destruct Hg as [Hp' _]. congruence.
    + now right; left.
  - (* the body is null *)
    assert (Hb : b = JNull) by (destruct b; cbn [answersOf] in Eo; try discriminate Eo; reflexivity).
    subst b. repeat split.
    + discriminate.
    + intros (b & E & Hb & _). injection E as <-. now destruct Hb.
    + intros a t Hg. apply answersGiven_inv in Hg. destruct Hg as [Hp' _].
      discriminate Hp'.
    + now right; left.
    + now right; right.
Qed.

End Route.

Lemma V1_extract_total (answers : JsValue) :
  acceptedAnswers answers = true ->
  exists p, V1.extractProfileFromAnswers answers = Ok p.
Proof.
  intros Ha. destruct (accepted_entries _ Ha) as (entries & He).
  unfold V1.extractProfileFromAnswers. rewrite He. eexists. reflexivity.
Qed.

Lemma V2_extract_total (answers : JsValue) :
  acceptedAnswers answers = true ->
  exists p, V2.extractProfileFromAnswers answers = Ok p.
Proof.
  intros Ha. destruct (accepted_entries _ Ha) as (entries & He).
  unfold V2.extractProfileFromAnswers. rewrite He. eexists. reflexivity.
Qed.

Lemma V1_parse_total (text : str) : exists r, V1.parseAnalysis text = Ok r.
Proof. eexists. apply V1_parseAnalysis_eq. Qed.

Lemma V2_parse_total (text : str) : exists r, V2.parseAnalysis text = Ok r.
Proof. eexists. apply V2_parseAnalysis_eq. Qed.

(** X10: the quiz analysis route of the compact variant.  It answers
    400 with the fixed body exactly when the body is an object or other
    value, not null, without answers that are an object or an array;
    with such answers, all of them printable, and a text from the model
    it answers 200 with the summary, records and steps of
    [parseAnalysis], the profile of [extractProfileFromAnswers] and the
    time stamp; it answers 500 with the fixed body exactly when the body
    is missing or null, or the answers pass the test and one of them
    cannot be printed or the model gives no text: the two helpers are
    never the reason.  There is no fourth kind of response. *)
Theorem X10_quiz_analysis_route
  (reqBody : option JsValue) (ai : aiOutcome) (now : str) :
  let resp := V1_quizAnalysis reqBody ai now in
  (resp = invalidRequest <->
     exists b, reqBody = Some b /\ b <> JNull
               /\ forall answers, ~ answersGiven reqBody answers)
  /\ (forall answers t,
        answersGiven reqBody answers -> allPrintable answers -> ai = AiText t ->
        exists p r,
          V1.extractProfileFromAnswers answers = Ok p
          /\ V1.parseAnalysis t = Ok r
          /\ resp = mkResponse 200
                      (AnalysisBody (summary r) (recommendations r)
                         (nextSteps r) p now))
  /\ (resp = analysisFailed <->
        reqBody = None \/ reqBody = Some JNull
        \/ exists answers,
             answersGiven reqBody answers
             /\ (~ allPrintable answers \/ forall t, ai <> AiText t))
  /\ (status resp = 200 \/ resp = invalidRequest \/ resp = analysisFailed).
Proof.
  exact (quizAnalysis_cases _ _ V1_extract_total V1_parse_total reqBody ai now).
Qed.

(** X11: the quiz analysis routes of the two variants answer every
    request with the same status; a 400 or a 500 has the same body in
    both, and a 200 differs only in what the helpers of the variants
    return on the same answers and the same text. *)
Theorem X11_route_variants
  (reqBody : option JsValue) (ai : aiOutcome) (now : str) :
  let r1 := V1_quizAnalysis reqBody ai now in
  let r2 := V2_quizAnalysis reqBody ai now in
  status r1 = status r2
  /\ (status r1 <> 200 -> r1 = r2)
  /\ (status r1 = 200 ->
      exists answers t p1 p2 a1 a2,
        answersGiven reqBody answers /\ ai = AiText t
        /\ V1.extractProfileFromAnswers answers = Ok p1
        /\ V2.extractProfileFromAnswers answers = Ok p2
        /\ V1.parseAnalysis t = Ok a1 /\ V2.parseAnalysis t = Ok a2
        /\ r1 = mkResponse 200
                  (AnalysisBody (summary a1) (recommendations a1)
                     (nextSteps a1) p1 now)
        /\ r2 = mkResponse 200
                  (AnalysisBody (summary a2) (recommendations a2)
                     (nextSteps a2) p2 now)).
Proof.
  intros r1 r2. subst r1 r2. unfold V1_quizAnalysis, V2_quizAnalysis.
  rewrite !quizAnalysis_eq.
  destruct (answersOf reqBody) as [[answers|]|] eqn:Eo;
    try (repeat split; intros E; cbv in E; discriminate E).
  destruct (acceptedAnswers answers) eqn:Ea;
    try (repeat split; intros E; cbv in E; discriminate E).
  destruct (accepted_entries _ Ea) as (entries & He). rewrite He.
  destruct (V1_extract_total _ Ea) as (p1 & H1). rewrite H1.
  destruct (V2_extract_total _ Ea) as (p2 & H2). rewrite H2.
  destruct ai as [t| |];
    try (repeat split; intros E; cbv in E; discriminate E).
  destruct (forallb _ entries);
    try (repeat split; intros E; cbv in E; discriminate E).
  destruct (V1_parse_total t) as (a1 & Hr1). rewrite Hr1.
  destruct (V2_parse_total t) as (a2 & Hr2). rewrite Hr2.
  repeat split.
  - intros Hs. now destruct Hs.
  - intros _. exists answers, t, p1, p2, a1, a2.
    repeat split; try assumption; try reflexivity.
    destruct reqBody as [b|]; [|discriminate Eo].
    exists b. repeat split; [|exact Ea].
    destruct b; cbn [answersOf] in Eo; try discriminate Eo; congruence.
Qed.
